(** * Autoleveller of pcb2gcode: probe-grid planning, header emission and
      point correction ([autoleveller.cpp]).

    The C++ class is embedded as functions over an explicit [autoleveller]
    record.  Three conventions hold throughout.

    - A C++ [double] is a value of a type [D] carrying the operations of
      [DoubleOps].  The code is written once, over any [DoubleOps]; it is
      run on [Binary64.double] (IEEE-754 binary64, built on the Standard
      Library's [SpecFloat]) and reasoned about algebraically on
      [Exact.ereal] (real numbers extended with the two infinities and a
      NaN), the arithmetic in which the design is described.
    - A C++ [int] or [unsigned int] is a [Z] in the range of the type.
      Signed overflow and a double-to-integer conversion that does not fit
      are undefined behaviour in C++: the embedding returns [None] there.
      A loop that needs fuel returns [None] when the fuel runs out.
    - Text written to a stream or built by [boost::format] is a list of
      [token]s: literal text, integers, and doubles tagged with the way
      they are printed. *)

From Stdlib Require Import ZArith List Bool String Ascii Lia Reals Lra.
From Stdlib Require Import SpecFloat.
Import ListNotations.
Open Scope Z_scope.

Set Implicit Arguments.

(* ================================================================== *)
(** ** Arithmetic on doubles *)

(** The operations [autoleveller.cpp] applies to doubles. *)
Class DoubleOps (D : Type) : Type := {
  dadd : D -> D -> D;
  dsub : D -> D -> D;
  dmul : D -> D -> D;
  ddiv : D -> D -> D;
  dopp : D -> D;
  dltb : D -> D -> bool;          (* operator<  *)
  dleb : D -> D -> bool;          (* operator<= *)
  dabs : D -> D;                  (* abs   *)
  dsqrt : D -> D;                 (* sqrt  *)
  dround : D -> D;                (* round: halfway cases away from zero *)
  dfloor : D -> D;                (* floor *)
  dceil : D -> D;                 (* ceil  *)
  dinfinity : D;                  (* numeric_limits<double>::infinity() *)
  dofZ : Z -> D;                  (* conversion of an integer to double *)
  dtrunc : D -> option Z          (* integer part, toward zero; none for
                                     an infinity or a NaN *)
}.

(** IEEE-754 binary64. *)
Module Binary64.

Definition prec : Z := 53.
Definition emax : Z := 1024.

Definition double : Type := spec_float.

Definition of_Z (z : Z) : double := binary_normalize prec emax z 0 false.

(** Integer quotient of the mantissa [m] by [2^p], and whether the
    division is exact. *)
Definition mant_quot (m p : positive) : Z := Z.shiftr (Zpos m) (Zpos p).
Definition mant_exact (m p : positive) : bool :=
  Z.shiftl (mant_quot m p) (Zpos p) =? Zpos m.

(** An integer result [n] of rounding a value of sign [s]. *)
Definition of_rounded (s : bool) (n : Z) : double :=
  if n =? 0 then S754_zero s else of_Z n.

Definition trunc (x : double) : option Z :=
  match x with
  | S754_zero _ => Some 0
  | S754_finite s m (Zneg p) => Some (cond_Zopp s (mant_quot m p))
  | S754_finite s m e => Some (cond_Zopp s (Z.shiftl (Zpos m) e))
  | _ => None
  end.

Definition floor (x : double) : double :=
  match x with
  | S754_finite s m (Zneg p) =>
      let q := mant_quot m p in
      of_rounded s
        (if s then (if mant_exact m p then - q else - (q + 1)) else q)
  | _ => x
  end.

Definition ceil (x : double) : double :=
  match x with
  | S754_finite s m (Zneg p) =>
      let q := mant_quot m p in
      of_rounded s
        (if s then - q else (if mant_exact m p then q else q + 1))
  | _ => x
  end.

Definition round (x : double) : double :=
  match x with
  | S754_finite s m (Zneg p) =>
      let q := Z.shiftr (Zpos m + Z.shiftl 1 (Zpos p - 1)) (Zpos p) in
      of_rounded s (cond_Zopp s q)
  | _ => x
  end.

#[global] Instance ops : DoubleOps double := {
  dadd := SFadd prec emax;
  dsub := SFsub prec emax;
  dmul := SFmul prec emax;
  ddiv := SFdiv prec emax;
  dopp := SFopp;
  dltb := SFltb;
  dleb := SFleb;
  dabs := SFabs;
  dsqrt := SFsqrt prec emax;
  dround := round;
  dfloor := floor;
  dceil := ceil;
  dinfinity := S754_infinity false;
  dofZ := of_Z;
  dtrunc := trunc
  }.

(** The double nearest to the decimal [n / 10^k]. *)
Definition dec (n : Z) (k : nat) : double :=
  SFdiv prec emax (of_Z n) (of_Z (10 ^ Z.of_nat k)).

End Binary64.

(** Exact arithmetic: the reals with [+inf], [-inf] and a NaN.  Finite
    values obey the field laws; the special values follow IEEE-754. *)
Module Exact.

Inductive ereal : Type :=
  | Fin (r : R)
  | PInf
  | MInf
  | NaN.

Definition Rltb (a b : R) : bool := if Rlt_dec a b then true else false.
Definition Rleb (a b : R) : bool := if Rle_dec a b then true else false.
Definition Reqb (a b : R) : bool := if Req_dec_T a b then true else false.

(** Largest integer below or equal to [r]. *)
Definition Rfloor (r : R) : Z := Int_part r.
Definition Rceil (r : R) : Z := - Int_part (- r).
Definition Rround (r : R) : Z :=
  if Rleb 0 r then Int_part (r + / 2) else - Int_part (- r + / 2).
Definition Rtrunc (r : R) : Z :=
  if Rleb 0 r then Int_part r else - Int_part (- r).

Definition inf_of_sign (neg : bool) : ereal := if neg then MInf else PInf.

Definition eopp (x : ereal) : ereal :=
  match x with
  | Fin r => Fin (- r)
  | PInf => MInf
  | MInf => PInf
  | NaN => NaN
  end.

Definition eadd (x y : ereal) : ereal :=
  match x, y with
  | NaN, _ | _, NaN => NaN
  | Fin a, Fin b => Fin (a + b)
  | PInf, MInf | MInf, PInf => NaN
  | PInf, _ | _, PInf => PInf
  | MInf, _ | _, MInf => MInf
  end.

Definition esub (x y : ereal) : ereal := eadd x (eopp y).

Definition emul (x y : ereal) : ereal :=
  match x, y with
  | NaN, _ | _, NaN => NaN
  | Fin a, Fin b => Fin (a * b)
  | Fin a, PInf | PInf, Fin a =>
      if Reqb a 0 then NaN else inf_of_sign (Rltb a 0)
  | Fin a, MInf | MInf, Fin a =>
      if Reqb a 0 then NaN else inf_of_sign (negb (Rltb a 0))
  | PInf, PInf | MInf, MInf => PInf
  | PInf, MInf | MInf, PInf => MInf
  end.

Definition ediv (x y : ereal) : ereal :=
  match x, y with
  | NaN, _ | _, NaN => NaN
  | Fin a, Fin b =>
      if Reqb b 0
      then (if Reqb a 0 then NaN else inf_of_sign (Rltb a 0))
      else Fin (a / b)
  | Fin _, (PInf | MInf) => Fin 0
  | PInf, Fin b => inf_of_sign (Rltb b 0)
  | MInf, Fin b => inf_of_sign (negb (Rltb b 0))
  | (PInf | MInf), (PInf | MInf) => NaN
  end.

Definition eltb (x y : ereal) : bool :=
  match x, y with
  | NaN, _ | _, NaN => false
  | Fin a, Fin b => Rltb a b
  | MInf, (Fin _ | PInf) => true
  | Fin _, PInf => true
  | _, _ => false
  end.

Definition eleb (x y : ereal) : bool :=
  match x, y with
  | NaN, _ | _, NaN => false
  | Fin a, Fin b => Rleb a b
  | MInf, _ => true
  | _, PInf => true
  | _, _ => false
  end.

Definition eabs (x : ereal) : ereal :=
  match x with
  | Fin r => Fin (Rabs r)
  | PInf | MInf => PInf
  | NaN => NaN
  end.

Definition esqrt (x : ereal) : ereal :=
  match x with
  | Fin r => if Rltb r 0 then NaN else Fin (sqrt r)
  | PInf => PInf
  | MInf | NaN => NaN
  end.

Definition lift_int (f : R -> Z) (x : ereal) : ereal :=
  match x with
  | Fin r => Fin (IZR (f r))
  | _ => x
  end.

Definition etrunc (x : ereal) : option Z :=
  match x with
  | Fin r => Some (Rtrunc r)
  | _ => None
  end.

#[global] Instance ops : DoubleOps ereal := {
  dadd := eadd;
  dsub := esub;
  dmul := emul;
  ddiv := ediv;
  dopp := eopp;
  dltb := eltb;
  dleb := eleb;
  dabs := eabs;
  dsqrt := esqrt;
  dround := lift_int Rround;
  dfloor := lift_int Rfloor;
  dceil := lift_int Rceil;
  dinfinity := PInf;
  dofZ := fun z => Fin (IZR z);
  dtrunc := etrunc
  }.

End Exact.

(* ================================================================== *)
(** ** Machine integers and undefined behaviour *)

Definition bind {A B : Type} (m : option A) (f : A -> option B) : option B :=
  match m with
  | Some a => f a
  | None => None
  end.

Declare Scope ub_scope.
Delimit Scope ub_scope with ub.
Notation "x <- m ;; k" := (bind m (fun x => k))
  (at level 61, m at next level, right associativity) : ub_scope.
Notation "' p <- m ;; k" := (bind m (fun x => match x with p => k end))
  (at level 61, p pattern, m at next level, right associativity) : ub_scope.
Open Scope ub_scope.

Definition INT_MIN : Z := -2147483648.
Definition INT_MAX : Z := 2147483647.
Definition UINT_MAX : Z := 4294967295.

Definition in_int (z : Z) : bool := (INT_MIN <=? z) && (z <=? INT_MAX).
Definition in_uint (z : Z) : bool := (0 <=? z) && (z <=? UINT_MAX).

(** The result of an [int] operation: defined when it fits. *)
Definition int (z : Z) : option Z := if in_int z then Some z else None.

(** Conversion of a double to [int] and to [unsigned int]: the value is
    truncated; the behaviour is undefined when the truncated value does
    not fit the type. *)
Definition double_to_int {D} `{DoubleOps D} (d : D) : option Z :=
  z <- dtrunc d ;; int z.

Definition double_to_uint {D} `{DoubleOps D} (d : D) : option Z :=
  z <- dtrunc d ;; if in_uint z then Some z else None.

(* ================================================================== *)
(** ** Emitted text *)

Inductive token (D : Type) : Type :=
| Lit (s : string)        (* literal characters *)
| Int (z : Z)             (* an integer, in decimal *)
| Dbl (d : D)             (* a double through operator<< or %s *)
| Fix (p : nat) (d : D)   (* a double through "%.pf" *)
| Lex (d : D).            (* a double through lexical_cast<string> *)

Arguments Lit {D} s.
Arguments Int {D} z.

Definition text (D : Type) : Type := list (token D).

Definition newline : string := String (ascii_of_nat 10) EmptyString.
Definition dquote : string := String (ascii_of_nat 34) EmptyString.
Definition endl {D} : token D := Lit newline.

(* ================================================================== *)
(** ** Data model *)

(** Modelled from the spec: the enumeration [Software] is declared
    outside [autoleveller.cpp]; its values are the four dialects, in the
    order of the dialect arrays. *)
Inductive Software : Type := LINUXCNC | MACH4 | MACH3 | CUSTOM.

Definition Software_eqb (a b : Software) : bool :=
  match a, b with
  | LINUXCNC, LINUXCNC | MACH4, MACH4 | MACH3, MACH3 | CUSTOM, CUSTOM => true
  | _, _ => false
  end.

(** Modelled from the spec: [Tiling::TileInfo] is declared outside
    [autoleveller.cpp]; it carries the board width and height, the tile
    counts and the enabled flag. *)
Record TileInfo (D : Type) : Type := {
  enabled : bool;
  boardWidth : D;
  boardHeight : D;
  tileX : Z;
  tileY : Z
}.

(** Modelled from the spec: [uniqueCodes] is declared outside
    [autoleveller.cpp]; it is a monotonic allocator whose
    [getUniqueCode()] returns the next unused number. *)
Definition uniqueCodes : Type := Z.
Definition getUniqueCode (c : uniqueCodes) : Z * uniqueCodes := (c, c + 1).

(** The entries of the [variables_map] the constructor reads, one field
    per key. *)
Record Options (D : Type) : Type := {
  o_metric : bool;                    (* "metric" *)
  o_metricoutput : bool;              (* "metricoutput" *)
  o_al_probecode : string;            (* "al-probecode" *)
  o_al_probevar : Z;                  (* "al-probevar" *)
  o_al_setzzero : string;             (* "al-setzzero" *)
  o_al_x : D;                         (* "al-x" *)
  o_al_y : D;                         (* "al-y" *)
  o_zwork : D;                        (* "zwork" *)
  o_zsafe : D;                        (* "zsafe" *)
  o_al_probefeed : D;                 (* "al-probefeed" *)
  o_al_2ndprobefeed : option D;       (* "al-2ndprobefeed", when present *)
  o_al_probe_on : string;             (* "al-probe-on" *)
  o_al_probe_off : string;            (* "al-probe-off" *)
  o_software : string                 (* "software" *)
}.

(** Modelled from the spec: [icoordpair] and [icoords] are declared
    outside [autoleveller.cpp]; a point is a pair of doubles and a path a
    sequence of points. *)
Definition icoordpair (D : Type) : Type := (D * D)%type.
Definition icoords (D : Type) : Type := list (icoordpair D).

(** The members set by the constructor and never written again, with
    the names and in the order of the constructor's initializer list
    (the class is declared outside [autoleveller.cpp]).  A member that
    holds a formatted number is kept as text. *)
Record settings (D : Type) : Type := {
  unitconv : D;
  cfactor : D;
  probeCodeCustom : string;
  zProbeResultVarCustom : text D;
  setZZeroCustom : string;
  XProbeDistRequired : D;
  YProbeDistRequired : D;
  zwork : text D;
  zprobe : text D;
  zsafe : text D;
  zfail : text D;
  feedrate : text D;
  feedrate2nd : text D;
  probeOn : string;
  probeOff : string;
  software : Software;
  quantization_error : D;
  xoffset : D;
  yoffset : D;
  g01InterpolatedNum : Z;
  yProbeNum : Z;
  xProbeNum : Z;
  returnVar : Z;
  globalVar0 : Z;
  globalVar1 : Z;
  globalVar2 : Z;
  globalVar3 : Z;
  globalVar4 : Z;
  globalVar5 : Z;
  tileInfo : TileInfo D;
  initialXOffsetVar : Z;
  initialYOffsetVar : Z
}.

(** The object: the settings, the probe grid written by
    [prepareWorkarea], and the cursor [lastPoint]. *)
Record autoleveller (D : Type) : Type := {
  conf : settings D;
  startPointX : D;
  startPointY : D;
  numXPoints : Z;
  numYPoints : Z;
  XProbeDist : D;
  YProbeDist : D;
  averageProbeDist : D;
  lastPoint : icoordpair D
}.

Definition set_lastPoint {D} (st : autoleveller D) (p : icoordpair D)
  : autoleveller D :=
  {| conf := conf st;
     startPointX := startPointX st; startPointY := startPointY st;
     numXPoints := numXPoints st; numYPoints := numYPoints st;
     XProbeDist := XProbeDist st; YProbeDist := YProbeDist st;
     averageProbeDist := averageProbeDist st;
     lastPoint := p |}.

(* ================================================================== *)
(** ** Dialect tables *)

Open Scope string_scope.
Open Scope list_scope.
Open Scope Z_scope.

(** [callSubRepeat[software]] applied to its positional arguments; an
    argument that is not supplied prints as nothing.  The arrays have no
    entry for [CUSTOM] and are never indexed with it. *)
Definition callSubRepeat {D} (s : Software) (a1 a2 a3 a4 : text D) : text D :=
  match s with
  | LINUXCNC =>
      [Lit "o"] ++ a3 ++ [Lit " repeat ["] ++ a2 ++ [Lit "]"; endl]
      ++ a4 ++ [Lit "    o"] ++ a1 ++ [Lit " call"; endl]
      ++ a4 ++ [Lit "o"] ++ a3 ++ [Lit " endrepeat"; endl]
  | MACH4 | MACH3 => [Lit "M98 P"] ++ a1 ++ [Lit " L"] ++ a2 ++ [endl]
  | CUSTOM => []
  end.

Definition probeCode (s : Software) : string :=
  match s with
  | LINUXCNC => "G38.2"
  | MACH4 | MACH3 => "G31"
  | CUSTOM => EmptyString
  end.

Definition zProbeResultVar (s : Software) : string :=
  match s with
  | LINUXCNC | MACH4 => "#5063"
  | MACH3 => "#2002"
  | CUSTOM => EmptyString
  end.

Definition setZZero (s : Software) : string :=
  match s with
  | LINUXCNC => "G10 L20 P0 Z0"
  | MACH4 | MACH3 => "G92 Z0"
  | CUSTOM => EmptyString
  end.

(** [callSub2[software]], filled in by the constructor body, applied to
    the subroutine number and the two coordinates. *)
Definition callSub2 {D} (c : settings D) (a1 a2 a3 : text D) : text D :=
  match software c with
  | LINUXCNC =>
      [Lit "o"] ++ a1 ++ [Lit " call ["] ++ a2 ++ [Lit "] ["] ++ a3
      ++ [Lit "]"; endl]
  | MACH4 =>
      [Lit "G65 P"] ++ a1 ++ [Lit " A"] ++ a2 ++ [Lit " B"] ++ a3 ++ [endl]
  | MACH3 =>
      [Lit "#"; Int (globalVar0 c); Lit "="] ++ a2 ++ [endl]
      ++ [Lit "#"; Int (globalVar1 c); Lit "="] ++ a3 ++ [endl]
      ++ [Lit "M98 P"] ++ a1 ++ [endl]
  | CUSTOM => []
  end.

(* ================================================================== *)
(** ** Constructor *)

Definition to_lower (c : ascii) : ascii :=
  let n := nat_of_ascii c in
  if ((65 <=? n) && (n <=? 90))%nat then ascii_of_nat (n + 32) else c.

(** [boost::iequals]. *)
Fixpoint iequals (a b : string) : bool :=
  match a, b with
  | EmptyString, EmptyString => true
  | String x a', String y b' =>
      Ascii.eqb (to_lower x) (to_lower y) && iequals a' b'
  | _, _ => false
  end.

Section Construction.
Context {D : Type} `{DoubleOps D}.

(** The literals [25.4] and [0.2]. *)
Definition d25_4 : D := ddiv (dofZ 254) (dofZ 10).
Definition d0_2 : D := ddiv (dofZ 2) (dofZ 10).

(** The constructor.  [FIXED_FAIL_DEPTH_MM] and [FIXED_FAIL_DEPTH_IN]
    are macros defined outside [autoleveller.cpp]; they are taken as
    parameters.  The two allocators are returned in their new state. *)
Definition make_settings (FIXED_FAIL_DEPTH_MM FIXED_FAIL_DEPTH_IN : D)
    (options : Options D) (ocodes globalVars : uniqueCodes)
    (quantization_error xoffset yoffset : D) (tileInfo : TileInfo D)
  : settings D * uniqueCodes * uniqueCodes :=
  let unitconv :=
    if o_metric options
    then (if o_metricoutput options then dofZ 1 else ddiv (dofZ 1) d25_4)
    else (if o_metricoutput options then d25_4 else dofZ 1) in
  let cfactor := if o_metricoutput options then d25_4 else dofZ 1 in
  let '(g01InterpolatedNum, ocodes) := getUniqueCode ocodes in
  let '(yProbeNum, ocodes) := getUniqueCode ocodes in
  let '(xProbeNum, ocodes) := getUniqueCode ocodes in
  let '(returnVar, globalVars) := getUniqueCode globalVars in
  let '(globalVar0, globalVars) := getUniqueCode globalVars in
  let '(globalVar1, globalVars) := getUniqueCode globalVars in
  let '(globalVar2, globalVars) := getUniqueCode globalVars in
  let '(globalVar3, globalVars) := getUniqueCode globalVars in
  let '(globalVar4, globalVars) := getUniqueCode globalVars in
  let '(globalVar5, globalVars) := getUniqueCode globalVars in
  let '(initialXOffsetVar, globalVars) := getUniqueCode globalVars in
  let '(initialYOffsetVar, globalVars) := getUniqueCode globalVars in
  ({| unitconv := unitconv;
      cfactor := cfactor;
      probeCodeCustom := o_al_probecode options;
      zProbeResultVarCustom := [Lit "#"; Int (o_al_probevar options)];
      setZZeroCustom := o_al_setzzero options;
      XProbeDistRequired := dmul (o_al_x options) unitconv;
      YProbeDistRequired := dmul (o_al_y options) unitconv;
      zwork := [Fix 5 (dmul (o_zwork options) unitconv)];
      zprobe := [Fix 3 (dmul (o_zsafe options) unitconv)];
      zsafe := [Fix 3 (dmul (o_zsafe options) unitconv)];
      zfail := [Fix 3 (if o_metricoutput options
                       then FIXED_FAIL_DEPTH_MM else FIXED_FAIL_DEPTH_IN)];
      feedrate :=
        if dltb (dofZ 0) (o_al_probefeed options)
        then [Lex (dmul (o_al_probefeed options) unitconv)] else [];
      feedrate2nd :=
        match o_al_2ndprobefeed options with
        | Some f => [Lex (dmul f unitconv)]
        | None => []
        end;
      probeOn := o_al_probe_on options;
      probeOff := o_al_probe_off options;
      software :=
        if iequals (o_software options) "linuxcnc" then LINUXCNC
        else if iequals (o_software options) "mach3" then MACH3
        else if iequals (o_software options) "mach4" then MACH4
        else CUSTOM;
      quantization_error := dmul quantization_error cfactor;
      xoffset := xoffset;
      yoffset := yoffset;
      g01InterpolatedNum := g01InterpolatedNum;
      yProbeNum := yProbeNum;
      xProbeNum := xProbeNum;
      returnVar := returnVar;
      globalVar0 := globalVar0;
      globalVar1 := globalVar1;
      globalVar2 := globalVar2;
      globalVar3 := globalVar3;
      globalVar4 := globalVar4;
      globalVar5 := globalVar5;
      tileInfo := tileInfo;
      initialXOffsetVar := initialXOffsetVar;
      initialYOffsetVar := initialYOffsetVar |},
   ocodes, globalVars).

End Construction.

(* ================================================================== *)
(** ** The fragment of G-code that carries the correction formula *)

(** Expressions over numbered variables, as the emitted program writes
    them: [#n], a literal printed with [p] decimals, sums, differences,
    products and bracketed groups. *)
Inductive gexpr (D : Type) : Type :=
| EVar (n : Z)
| ELit (p : nat) (d : D)
| EAdd (a b : gexpr D)
| ESub (a b : gexpr D)
| EMul (a b : gexpr D)
| EBr (a : gexpr D).

Arguments EVar {D} n.

(** An assignment [#n=e]. *)
Record gassign (D : Type) : Type := { target : Z; rhs : gexpr D }.

Fixpoint print_expr {D} (e : gexpr D) : text D :=
  match e with
  | EVar n => [Lit "#"; Int n]
  | ELit p d => [Fix p d]
  | EAdd a b => print_expr a ++ [Lit "+"] ++ print_expr b
  | ESub a b => print_expr a ++ [Lit "-"] ++ print_expr b
  | EMul a b => print_expr a ++ [Lit "*"] ++ print_expr b
  | EBr a => [Lit "["] ++ print_expr a ++ [Lit "]"]
  end.

Definition print_assign {D} (a : gassign D) : text D :=
  [Lit "#"; Int (target a); Lit "="] ++ print_expr (rhs a) ++ [endl].

Definition print_program {D} (p : list (gassign D)) : text D :=
  flat_map print_assign p.

Section GcodeSemantics.
Context {D : Type} `{DoubleOps D}.

(** Rounding to an integer, halfway cases to even. *)
Definition round_half_even (x : D) : D :=
  let f := dfloor x in
  let r := dsub x f in
  let half := ddiv (dofZ 1) (dofZ 2) in
  if dltb r half then f
  else if dltb half r then dadd f (dofZ 1)
  else match dtrunc f with
       | Some z => if Z.even z then f else dadd f (dofZ 1)
       | None => f
       end.

(** The number a controller reads back from a double printed with [p]
    decimals. *)
Definition fixed_value (p : nat) (d : D) : D :=
  ddiv (round_half_even (dmul d (dofZ (10 ^ Z.of_nat p))))
       (dofZ (10 ^ Z.of_nat p)).

(** The numbered variables of the controller. *)
Definition store : Type := Z -> D.

Definition update (s : store) (n : Z) (v : D) : store :=
  fun k => if k =? n then v else s k.

Fixpoint eval (s : store) (e : gexpr D) : D :=
  match e with
  | EVar n => s n
  | ELit p d => fixed_value p d
  | EAdd a b => dadd (eval s a) (eval s b)
  | ESub a b => dsub (eval s a) (eval s b)
  | EMul a b => dmul (eval s a) (eval s b)
  | EBr a => eval s a
  end.

Definition exec (s : store) (a : gassign D) : store :=
  update s (target a) (eval s (rhs a)).

Definition run (p : list (gassign D)) (s : store) : store :=
  fold_left exec p s.

End GcodeSemantics.

(* ================================================================== *)
(** ** Grid planning *)

Section Planner.
Context {D : Type} `{DoubleOps D}.

Definition workarea_t : Type := (icoordpair D * icoordpair D)%type.

(** The number in [getVarName]: [i * numYPoints + j + 500]. *)
Definition varIndex (st : autoleveller D) (i j : Z) : option Z :=
  a <- int (i * numYPoints st) ;;
  b <- int (a + j) ;;
  int (b + 500).

Definition getVarName (st : autoleveller D) (i j : Z) : option (text D) :=
  n <- varIndex st i j ;; Some [Lit "#"; Int n].

Definition std_min (a b : D) : D := if dltb b a then b else a.
Definition std_max (a b : D) : D := if dltb a b then b else a.

(** [std::min_element] and [std::max_element] with the comparison of
    one coordinate [key]; [best] is the current candidate. *)
Fixpoint min_element_from (key : icoordpair D -> D) (best : icoordpair D)
    (l : icoords D) : icoordpair D :=
  match l with
  | [] => best
  | p :: l' =>
      min_element_from key (if dltb (key p) (key best) then p else best) l'
  end.

Fixpoint max_element_from (key : icoordpair D -> D) (best : icoordpair D)
    (l : icoords D) : icoordpair D :=
  match l with
  | [] => best
  | p :: l' =>
      max_element_from key (if dltb (key best) (key p) then p else best) l'
  end.

(** On an empty path both return [end()], which the caller
    dereferences: undefined. *)
Definition min_element (key : icoordpair D -> D) (path : icoords D)
  : option (icoordpair D) :=
  match path with
  | [] => None
  | p :: l => Some (min_element_from key p l)
  end.

Definition max_element (key : icoordpair D -> D) (path : icoords D)
  : option (icoordpair D) :=
  match path with
  | [] => None
  | p :: l => Some (max_element_from key p l)
  end.

(** The [BOOST_FOREACH] of [computeWorkarea]. *)
Fixpoint scan_paths (toolpaths : list (icoords D)) (w : workarea_t)
  : option workarea_t :=
  match toolpaths with
  | [] => Some w
  | path :: rest =>
      xmin <- min_element fst path ;;
      ymin <- min_element snd path ;;
      xmax <- max_element fst path ;;
      ymax <- max_element snd path ;;
      scan_paths rest
        ((std_min (fst (fst w)) (fst xmin), std_min (snd (fst w)) (snd ymin)),
         (std_max (fst (snd w)) (fst xmax), std_max (snd (snd w)) (snd ymax)))
  end.

Definition computeWorkarea (st : autoleveller D)
    (toolpaths : list (icoords D)) : option workarea_t :=
  let c := conf st in
  w <- scan_paths toolpaths
         ((dinfinity, dinfinity), (dopp dinfinity, dopp dinfinity)) ;;
  Some
    ((dsub (fst (fst w)) (dadd (xoffset c) (quantization_error c)),
      dsub (snd (fst w)) (dadd (yoffset c) (quantization_error c))),
     (dsub (fst (snd w)) (dsub (xoffset c) (quantization_error c)),
      dsub (snd (snd w)) (dsub (yoffset c) (quantization_error c)))).

(** The locals [workareaLenX] and [workareaLenY] of [prepareWorkarea]. *)
Definition workareaLenX (c : settings D) (workarea : workarea_t) : D :=
  dadd (dmul (dsub (fst (snd workarea)) (fst (fst workarea))) (cfactor c))
       (dmul (dmul (boardWidth (tileInfo c)) (cfactor c))
             (dofZ (tileX (tileInfo c) - 1))).

Definition workareaLenY (c : settings D) (workarea : workarea_t) : D :=
  dadd (dmul (dsub (snd (snd workarea)) (snd (fst workarea))) (cfactor c))
       (dmul (dmul (boardHeight (tileInfo c)) (cfactor c))
             (dofZ (tileY (tileInfo c) - 1))).

(** The ceiling of the capacity gate. *)
Definition too_many_points (s : Software) (numPoints : Z) : bool :=
  (Software_eqb s LINUXCNC && (4501 <? numPoints))
  || (negb (Software_eqb s LINUXCNC) && (500 <? numPoints)).

Definition prepareWorkarea (st : autoleveller D)
    (toolpaths : list (icoords D)) : option (bool * autoleveller D) :=
  let c := conf st in
  workarea <- computeWorkarea st toolpaths ;;
  let lenX := workareaLenX c workarea in
  let lenY := workareaLenY c workarea in
  let startPointX := dmul (fst (fst workarea)) (cfactor c) in
  let startPointY := dmul (snd (fst workarea)) (cfactor c) in
  temp <- double_to_int (dround (ddiv lenX (XProbeDistRequired c))) ;;
  numXPoints <- (if 1 <? temp then int (temp + 1) else Some 2) ;;
  temp <- double_to_int (dround (ddiv lenY (YProbeDistRequired c))) ;;
  numYPoints <- (if 1 <? temp then int (temp + 1) else Some 2) ;;
  nx1 <- int (numXPoints - 1) ;;
  ny1 <- int (numYPoints - 1) ;;
  let XProbeDist := ddiv lenX (dofZ nx1) in
  let YProbeDist := ddiv lenY (dofZ ny1) in
  let averageProbeDist := ddiv (dadd XProbeDist YProbeDist) (dofZ 2) in
  total <- int (numXPoints * numYPoints) ;;
  Some (negb (too_many_points (software c) total),
        {| conf := c;
           startPointX := startPointX; startPointY := startPointY;
           numXPoints := numXPoints; numYPoints := numYPoints;
           XProbeDist := XProbeDist; YProbeDist := YProbeDist;
           averageProbeDist := averageProbeDist;
           lastPoint := lastPoint st |}).

End Planner.

(* ================================================================== *)
(** ** Header and footer *)

Section Emitter.
Context {D : Type} `{DoubleOps D}.

Definition logFileOpenAndComment (s : Software) : text D :=
  match s with
  | LINUXCNC =>
      [Lit "(PROBEOPEN RawProbeLog.txt) ( Record all probes in RawProbeLog.txt )"]
  | MACH4 | MACH3 =>
      [Lit "M40 (Begins a probe log file, when the window appears, enter a name for the log file such as ";
       Lit dquote; Lit "RawProbeLog.txt"; Lit dquote; Lit ")"]
  | CUSTOM => []
  end.

Definition logFileClose (s : Software) : text D :=
  match s with
  | LINUXCNC => [Lit "(PROBECLOSE)"]
  | MACH4 | MACH3 => [Lit "M41"]
  | CUSTOM => []
  end.

Definition startSub (s : Software) (n : Z) : text D :=
  match s with
  | LINUXCNC => [Lit "o"; Int n; Lit " sub"]
  | MACH4 | MACH3 => [Lit "O"; Int n]
  | CUSTOM => []
  end.

Definition endSub (s : Software) (n : Z) : text D :=
  match s with
  | LINUXCNC => [Lit "o"; Int n; Lit " endsub"]
  | MACH4 | MACH3 => [Lit "M99"]
  | CUSTOM => []
  end.

(** [var1[software]] ... [var6[software]]: a positional parameter, or
    for Mach3 one of the global variables. *)
Definition subVar (c : settings D) (k : Z) (g : Z) : token D :=
  match software c with
  | MACH3 => Int g
  | _ => Int k
  end.

Definition probeCommand (c : settings D) : string :=
  if Software_eqb (software c) CUSTOM
  then probeCodeCustom c else probeCode (software c).

Definition zeroCommand (c : settings D) : string :=
  if Software_eqb (software c) CUSTOM
  then setZZeroCustom c else setZZero (software c).

Definition resultVar (c : settings D) : text D :=
  if Software_eqb (software c) CUSTOM
  then zProbeResultVarCustom c else [Lit (zProbeResultVar (software c))].

Definition footerNoIf (st : autoleveller D) (ocodes : uniqueCodes)
  : text D * uniqueCodes :=
  let c := conf st in
  let s := software c in
  let var1 := subVar c 1 (globalVar0 c) in
  let var2 := subVar c 2 (globalVar1 c) in
  if Software_eqb s CUSTOM then ([], ocodes)
  else
    let '(code, ocodes') := getUniqueCode ocodes in
    (startSub s (g01InterpolatedNum c)
       ++ [Lit " ( G01 with Z-correction subroutine )"; endl]
     ++ (if enabled (tileInfo c)
         then [Lit "    #3 = [ #5211 - #"; Int (initialXOffsetVar c);
               Lit " ] ( x-tile offset [minus the initial offset] )"; endl;
               Lit "    #4 = [ #5212 - #"; Int (initialYOffsetVar c);
               Lit " ] ( y-tile offset [minus the initial offset] )"; endl]
         else [Lit "    #3 = 0 ( x-tile offset [minus the initial offset] )";
               endl;
               Lit "    #4 = 0 ( x-tile offset [minus the initial offset] )";
               endl])
     ++ [Lit "    #5 = [ FIX[ [ #"; var1; Lit " - "; Dbl (startPointX st);
         Lit " + #3 ] / "; Dbl (XProbeDist st);
         Lit " ] ] ( Lower left point X index )"; endl]
     ++ [Lit "    #6 = [ FIX[ [ #"; var2; Lit " - "; Dbl (startPointY st);
         Lit " + #4 ] / "; Dbl (YProbeDist st);
         Lit " ] ] ( Lower left point Y index )"; endl]
     ++ [Lit "    #7 = [ #5 * "; Int (numYPoints st);
         Lit " + [ #6 + 1 ] + 500 ] ( Upper left point parameter number )";
         endl]
     ++ [Lit "    #8 = [ [ #5 + 1 ] *"; Int (numYPoints st);
         Lit " + [ #6 + 1 ] + 500 ] ( Upper right point parameter number )";
         endl]
     ++ [Lit "    #9 = [ #5 * "; Int (numYPoints st);
         Lit " + #6 + 500 ] ( Lower left point parameter number )"; endl]
     ++ [Lit "    #10 = [ [ #5 + 1 ] * "; Int (numYPoints st);
         Lit " + #6 + 500 ] ( Lower right point parameter number )"; endl]
     ++ [Lit "    #11 = [ [ #"; var2; Lit " + #4 - "; Dbl (startPointY st);
         Lit " - #6 * "; Dbl (YProbeDist st); Lit " ] / ";
         Dbl (YProbeDist st); Lit " ] ";
         Lit "( Distance between the point and the left border of the rectangle, normalized to 1 )";
         endl]
     ++ [Lit "    #12 = [ [ #"; var1; Lit " + #3 - "; Dbl (startPointX st);
         Lit " - #5 * "; Dbl (XProbeDist st); Lit " ] / ";
         Dbl (XProbeDist st); Lit " ] ";
         Lit "( Distance between the point and the bottom border of the rectangle, normalized to 1 ) ";
         endl]
     ++ [Lit "    #13 = [ ##9 + [ ##7 - ##9 ] * #11 ] ( Linear interpolation of the x-min elements )";
         endl;
         Lit "    #14 = [ ##10 + [ ##8 - ##10 ] * #11 ] ( Linear interpolation of the x-max elements )";
         endl;
         Lit "    #15 = [ #13 + [ #14 - #13 ] * #12 ] ( Linear interpolation of previously interpolated points )";
         endl]
     ++ [Lit "    G01 X#"; var1; Lit " Y#"; var2; Lit " Z["] ++ zwork c
     ++ [Lit "+#15]"; endl]
     ++ endSub s (g01InterpolatedNum c) ++ [endl; endl]
     ++ startSub s (yProbeNum c) ++ [Lit " ( Y probe subroutine )"; endl]
     ++ [Lit "    G0 Z"] ++ zprobe c ++ [Lit " ( Move to probe height )"; endl]
     ++ [Lit "    X[#"; Int (globalVar0 c); Lit " * "; Dbl (XProbeDist st);
         Lit " + "; Dbl (startPointX st); Lit "] Y[#"; Int (globalVar1 c);
         Lit " * "; Dbl (YProbeDist st); Lit " + "; Dbl (startPointY st);
         Lit "] ( Move to the current probe point )"; endl]
     ++ [Lit "    "; Lit (probeCode s); Lit " Z"] ++ zfail c ++ [Lit " F"]
     ++ feedrate c ++ [Lit " ( Probe it )"; endl]
     ++ [Lit "    #[#"; Int (globalVar0 c); Lit " * "; Int (numYPoints st);
         Lit " + #"; Int (globalVar1 c); Lit " + 500] = "] ++ resultVar c
     ++ [Lit " ( Save the probe in the correct parameter )"; endl]
     ++ [Lit "    #"; Int (globalVar1 c); Lit " = [#"; Int (globalVar1 c);
         Lit " + #"; Int (globalVar2 c);
         Lit "] ( Increment/decrement by 1 the Y counter )"; endl]
     ++ endSub s (yProbeNum c) ++ [endl; endl]
     ++ startSub s (xProbeNum c) ++ [Lit " ( X probe subroutine )"; endl]
     ++ [Lit "    "]
     ++ callSubRepeat s [Int (yProbeNum c)] [Lit "#"; Int (globalVar3 c)]
          [Int code] [Lit "    "]
     ++ [Lit "    #"; Int (globalVar3 c); Lit " = "; Int (numYPoints st); endl]
     ++ [Lit "    #"; Int (globalVar2 c); Lit " = [0 - #";
         Int (globalVar2 c); Lit "]"; endl]
     ++ [Lit "    #"; Int (globalVar1 c); Lit " = [#"; Int (globalVar1 c);
         Lit " + #"; Int (globalVar2 c); Lit "]"; endl]
     ++ [Lit "    #"; Int (globalVar0 c); Lit " = [#"; Int (globalVar0 c);
         Lit " + 1] ( Increment by 1 the X counter )"; endl]
     ++ endSub s (xProbeNum c) ++ [endl; endl],
     ocodes').

(** The four lines the Custom traversal writes for grid point [(i, j)]:
    the body of its [while] loop without the counter update. *)
Definition customProbe (st : autoleveller D) (i j : Z) : option (text D) :=
  let c := conf st in
  name <- getVarName st i j ;;
  Some ([Lit "G0 Z"] ++ zprobe c ++ [endl]
        ++ [Lit "X"; Dbl (dadd (dmul (dofZ i) (XProbeDist st)) (startPointX st));
            Lit " Y"; Dbl (dadd (dmul (dofZ j) (YProbeDist st)) (startPointY st));
            endl]
        ++ [Lit (probeCodeCustom c); Lit " Z"] ++ zfail c ++ [Lit " F"]
        ++ feedrate c ++ [endl]
        ++ name ++ [Lit "="] ++ zProbeResultVarCustom c ++ [endl]).

(** [while( j >= 0 && j <= numYPoints - 1 )]: returns the text written
    and the value of [j] on exit. *)
Fixpoint custom_while (fuel : nat) (st : autoleveller D)
    (i j incr_decr : Z) (out : text D) : option (text D * Z) :=
  match fuel with
  | O => None
  | S fuel' =>
      top <- int (numYPoints st - 1) ;;
      if (0 <=? j) && (j <=? top)
      then
        block <- customProbe st i j ;;
        j' <- int (j + incr_decr) ;;
        custom_while fuel' st i j' incr_decr (out ++ block)
      else Some (out, j)
  end.

(** [for( i = 0; i < numXPoints; i++ )], with [n] iterations left. *)
Fixpoint custom_for (fuel : nat) (n : nat) (st : autoleveller D)
    (i j incr_decr : Z) (out : text D) : option (text D) :=
  match n with
  | O => Some out
  | S n' =>
      '(out', j') <- custom_while fuel st i j incr_decr out ;;
      let incr_decr' := - incr_decr in
      j'' <- int (j' + incr_decr') ;;
      i' <- int (i + 1) ;;
      custom_for fuel n' st i' j'' incr_decr' out'
  end.

Definition is_empty (t : text D) : bool :=
  match t with
  | [] => true
  | _ => false
  end.

(** The text written before the probing driver when a probe feed rate
    is set. *)
Definition probingIntro (st : autoleveller D) (total : Z) : text D :=
  let c := conf st in
  (if enabled (tileInfo c)
   then [Lit "#"; Int (initialXOffsetVar c); Lit " = #5211"; endl;
         Lit "#"; Int (initialYOffsetVar c); Lit " = #5212"; endl; endl]
   else [Lit "#"; Int (initialXOffsetVar c); Lit " = 0"; endl;
         Lit "#"; Int (initialYOffsetVar c); Lit " = 0"; endl; endl])
  ++ [Lit (probeOn c); endl]
  ++ [Lit "G0 Z"] ++ zsafe c ++ [Lit " ( Move Z to safe height )"; endl]
  ++ [Lit "G0 X"; Dbl (startPointX st); Lit " Y"; Dbl (startPointY st);
      Lit " ( Move XY to start point )"; endl]
  ++ [Lit "G0 Z"] ++ zprobe c ++ [Lit " ( Move Z to probe height )"; endl]
  ++ (if Software_eqb (software c) CUSTOM then []
      else logFileOpenAndComment (software c) ++ [endl])
  ++ [Lit (probeCommand c); Lit " Z"] ++ zfail c ++ [Lit " F"]
  ++ feedrate c ++ [Lit " ( Z-probe )"; endl]
  ++ [Lit "#500 = 0 ( Probe point [0, 0] is our reference )"; endl]
  ++ [Lit (zeroCommand c); Lit " ( Set the current Z as zero-value )"; endl]
  ++ [endl]
  ++ [Lit "( We now start the real probing: move the Z axis to the probing height, move to )";
      endl]
  ++ [Lit "( the probing XY position, probe it and save the result, parameter "]
  ++ resultVar c ++ [Lit ", )"; endl]
  ++ [Lit "( in a numbered parameter; we will make "; Int (numXPoints st);
      Lit " probes on the X-axis and )"; endl]
  ++ [Lit "( "; Int (numYPoints st);
      Lit " probes on the Y-axis, for a grand total of "; Int total;
      Lit " probes )"; endl]
  ++ [endl].

(** The driver for a dialect with subroutines. *)
Definition subroutineDriver (st : autoleveller D) (top code : Z) : text D :=
  let c := conf st in
  [Lit "#"; Int (globalVar0 c); Lit " = 0 ( X iterator )"; endl;
   Lit "#"; Int (globalVar1 c); Lit " = 1 ( Y iterator )"; endl;
   Lit "#"; Int (globalVar2 c); Lit " = 1 ( UP or DOWN increment )"; endl;
   Lit "#"; Int (globalVar3 c); Lit " = "; Int top;
   Lit " ( number of Y points; the 1st Y row can be done one time less )";
   endl]
  ++ callSubRepeat (software c) [Int (xProbeNum c)] [Int (numXPoints st)]
       [Int code] [].

(** The optional second probing pass. *)
Definition secondPass (st : autoleveller D) : text D :=
  let c := conf st in
  [endl; Lit "T2"; endl; Lit "(MSG, Insert the mill tool)"; endl;
   Lit "M0 (Temporary machine stop.)"; endl]
  ++ [Lit "G0 Z["] ++ zsafe c
  ++ [Lit " + "; Dbl (dmul d0_2 (cfactor c));
      Lit "] ( Move Z to safe height )"; endl]
  ++ [Lit "G0 X"; Dbl (startPointX st); Lit " Y"; Dbl (startPointY st);
      Lit " ( Move XY to start point )"; endl]
  ++ [Lit "G0 Z["] ++ zprobe c
  ++ [Lit " + "; Dbl (dmul d0_2 (cfactor c));
      Lit "] ( Move Z to probe height )"; endl]
  ++ [Lit (probeCommand c); Lit " Z["] ++ zfail c
  ++ [Lit " - "; Dbl (dmul d0_2 (cfactor c)); Lit "] F"] ++ feedrate2nd c
  ++ [Lit " ( Probe )"; endl]
  ++ [Lit (zeroCommand c); Lit " ( Set the current Z as zero-value )"; endl].

(** The text that closes the header. *)
Definition headerEnd (st : autoleveller D) : text D :=
  let c := conf st in
  [endl]
  ++ [Lit "G0 Z"] ++ zsafe c ++ [Lit " ( Move Z to safe height )"; endl]
  ++ (if Software_eqb (software c) CUSTOM then []
      else logFileClose (software c)
           ++ [Lit " ( Close the probe log file )"; endl])
  ++ [Lit "( Probing has ended, each Z-coordinate will be corrected with a bilinear interpolation )";
      endl]
  ++ [Lit (probeOff c); endl]
  ++ (if Software_eqb (software c) CUSTOM
      then [endl; Lit "#4 = "] ++ zwork c ++ [endl] else [])
  ++ [endl].

(** [header]: the text written to the stream and the new state of the
    subroutine-number allocator.  [fuel] bounds each run of the
    traversal's [while] loop. *)
Definition header (fuel : nat) (st : autoleveller D) (ocodes : uniqueCodes)
  : option (text D * uniqueCodes) :=
  let c := conf st in
  let '(subs, ocodes) :=
    if Software_eqb (software c) LINUXCNC
    then footerNoIf st ocodes else ([], ocodes) in
  '(probing, ocodes) <-
    (if is_empty (feedrate c) then Some ([], ocodes)
     else
       total <- int (numXPoints st * numYPoints st) ;;
       if negb (Software_eqb (software c) CUSTOM)
       then
         top <- int (numYPoints st - 1) ;;
         let '(code, ocodes') := getUniqueCode ocodes in
         Some (probingIntro st total ++ subroutineDriver st top code, ocodes')
       else
         out <- custom_for fuel (Z.to_nat (numXPoints st)) st 0 1 1
                  (probingIntro st total) ;;
         Some (out, ocodes)) ;;
  let second :=
    if is_empty (feedrate2nd c) then [] else secondPass st in
  Some (subs ++ probing ++ second ++ headerEnd st, ocodes).

End Emitter.

(* ================================================================== *)
(** ** Point correction *)

Section Corrector.
Context {D : Type} `{DoubleOps D}.

(** The locals of [interpolatePoint]. *)
Definition xminindex (st : autoleveller D) (point : icoordpair D)
  : option Z :=
  double_to_int
    (dfloor (ddiv (dsub (fst point) (startPointX st)) (XProbeDist st))).

Definition yminindex (st : autoleveller D) (point : icoordpair D)
  : option Z :=
  double_to_int
    (dfloor (ddiv (dsub (snd point) (startPointY st)) (YProbeDist st))).

Definition x_minus_x0_rel (st : autoleveller D) (point : icoordpair D)
    (xminindex : Z) : D :=
  ddiv (dsub (dsub (fst point) (startPointX st))
             (dmul (dofZ xminindex) (XProbeDist st)))
       (XProbeDist st).

Definition y_minus_y0_rel (st : autoleveller D) (point : icoordpair D)
    (yminindex : Z) : D :=
  ddiv (dsub (dsub (snd point) (startPointY st))
             (dmul (dofZ yminindex) (YProbeDist st)))
       (YProbeDist st).

Definition interpolatePoint (st : autoleveller D) (point : icoordpair D)
  : option (text D) :=
  xmin <- xminindex st point ;;
  ymin <- yminindex st point ;;
  let x_rel := x_minus_x0_rel st point xmin in
  let y_rel := y_minus_y0_rel st point ymin in
  ymin1 <- int (ymin + 1) ;;
  xmin1 <- int (xmin + 1) ;;
  a1 <- getVarName st xmin ymin1 ;;
  a2 <- getVarName st xmin1 ymin1 ;;
  a3 <- getVarName st xmin ymin ;;
  a4 <- getVarName st xmin1 ymin ;;
  Some ([Lit "#"; Int 1; Lit "="; Lit "["] ++ a3 ++ [Lit "+"; Lit "["] ++ a1
        ++ [Lit "-"] ++ a3 ++ [Lit "]"; Lit "*"; Fix 5 y_rel; Lit "]"; endl]
        ++ [Lit "#"; Int 2; Lit "="; Lit "["] ++ a4 ++ [Lit "+"; Lit "["]
        ++ a2 ++ [Lit "-"] ++ a4
        ++ [Lit "]"; Lit "*"; Fix 5 y_rel; Lit "]"; endl]
        ++ [Lit "#"; Int 3; Lit "="; Lit "["; Lit "#"; Int 1; Lit "+";
            Lit "["; Lit "#"; Int 2; Lit "-"; Lit "#"; Int 1; Lit "]";
            Lit "*"; Fix 5 x_rel; Lit "]"; endl]).

(** [boost::geometry::distance] of two points of the plane; the library
    is outside the repository: the Euclidean distance. *)
Definition distance (a b : icoordpair D) : D :=
  let dx := dsub (fst a) (fst b) in
  let dy := dsub (snd a) (snd b) in
  dsqrt (dadd (dmul dx dx) (dmul dy dy)).

(** [abs] is applied to a double: it is the absolute value of
    doubles. *)
Definition numOfSubsegments (st : autoleveller D) (point : icoordpair D)
  : option Z :=
  let c := conf st in
  if dleb (dabs (dsub (fst (lastPoint st)) (fst point)))
          (quantization_error c)
  then double_to_uint
         (dceil (ddiv (distance (lastPoint st) point) (YProbeDist st)))
  else if dleb (dabs (dsub (snd (lastPoint st)) (snd point)))
               (quantization_error c)
  then double_to_uint
         (dceil (ddiv (distance (lastPoint st) point) (XProbeDist st)))
  else double_to_uint
         (dceil (ddiv (distance (lastPoint st) point)
                      (averageProbeDist st))).

(** The point pushed at step [i] of the loop of [splitSegment]. *)
Definition splitPoint (st : autoleveller D) (point : icoordpair D)
    (n i : Z) : icoordpair D :=
  (dadd (fst (lastPoint st))
        (ddiv (dmul (dsub (fst point) (fst (lastPoint st))) (dofZ i))
              (dofZ n)),
   dadd (snd (lastPoint st))
        (ddiv (dmul (dsub (snd point) (snd (lastPoint st))) (dofZ i))
              (dofZ n))).

(** [for( unsigned int i = 1; i <= n; i++ )]: [i] takes the values
    [1 .. n].  With [n = UINT_MAX] the test never fails, [i] wraps to 0
    and the loop does not end: no result. *)
Definition splitSegment (st : autoleveller D) (point : icoordpair D)
    (n : Z) : option (icoords D) :=
  if n =? UINT_MAX then None
  else Some (map (fun i => splitPoint st point n (Z.of_nat i))
                 (seq 1 (Z.to_nat n))).

(** The loop of [addChainPoint] for the Custom dialect. *)
Fixpoint inlineCorrections (st : autoleveller D) (l : icoords D)
  : option (text D) :=
  match l with
  | [] => Some []
  | i :: l' =>
      t <- interpolatePoint st i ;;
      rest <- inlineCorrections st l' ;;
      Some (t ++ [Lit "X"; Fix 5 (fst i); Lit " Y"; Fix 5 (snd i);
                  Lit " Z[#3+#4]"; endl] ++ rest)
  end.

Definition has_subroutines (s : Software) : bool :=
  Software_eqb s LINUXCNC || Software_eqb s MACH4 || Software_eqb s MACH3.

(** [addChainPoint]: the text returned, and the object with its new
    cursor. *)
Definition addChainPoint (st : autoleveller D) (point : icoordpair D)
  : option (text D * autoleveller D) :=
  let c := conf st in
  n <- numOfSubsegments st point ;;
  subsegments <- splitSegment st point n ;;
  outputStr <-
    (if has_subroutines (software c)
     then Some (flat_map
                  (fun i => callSub2 c [Int (g01InterpolatedNum c)]
                              [Dbl (fst i)] [Dbl (snd i)])
                  subsegments)
     else inlineCorrections st subsegments) ;;
  Some (outputStr, set_lastPoint st point).

(** [g01Corrected]: it returns text and writes no member. *)
Definition g01Corrected (st : autoleveller D) (point : icoordpair D)
  : option (text D * autoleveller D) :=
  let c := conf st in
  if has_subroutines (software c)
  then Some (callSub2 c [Int (g01InterpolatedNum c)]
               [Dbl (fst point)] [Dbl (snd point)], st)
  else
    t <- interpolatePoint st point ;;
    Some (t ++ [Lit "G01 Z["] ++ zwork c
            ++ [Lit "+#"; Int (returnVar c); Lit "]"; endl], st).

(** The three assignments [interpolatePoint] writes, as a program. *)
Definition blend (lo hi : Z) (frac : D) : gexpr D :=
  EBr (EAdd (EVar lo) (EMul (EBr (ESub (EVar hi) (EVar lo))) (ELit 5 frac))).

Definition interpolation (st : autoleveller D) (point : icoordpair D)
  : option (list (gassign D)) :=
  xmin <- xminindex st point ;;
  ymin <- yminindex st point ;;
  ymin1 <- int (ymin + 1) ;;
  xmin1 <- int (xmin + 1) ;;
  upperLeft <- varIndex st xmin ymin1 ;;
  upperRight <- varIndex st xmin1 ymin1 ;;
  lowerLeft <- varIndex st xmin ymin ;;
  lowerRight <- varIndex st xmin1 ymin ;;
  Some [ {| target := 1;
            rhs := blend lowerLeft upperLeft
                     (y_minus_y0_rel st point ymin) |};
         {| target := 2;
            rhs := blend lowerRight upperRight
                     (y_minus_y0_rel st point ymin) |};
         {| target := 3;
            rhs := blend 1 2 (x_minus_x0_rel st point xmin) |} ].

End Corrector.

(* ================================================================== *)
(** ** Definitions that follow the specification *)

(** The dialect ceiling of the capacity gate. *)
Definition ceiling (s : Software) : Z :=
  match s with
  | LINUXCNC => 4501
  | _ => 500
  end.

(** The point count of an axis whose rounded quotient is [n]. *)
Definition plannedPoints (n : Z) : Z := if 1 <? n then n + 1 else 2.

(** The integers [a, a+1, ...] and [a, a-1, ...], [n] of them. *)
Fixpoint zup (a : Z) (n : nat) : list Z :=
  match n with
  | O => []
  | S n' => a :: zup (a + 1) n'
  end.

Fixpoint zdown (a : Z) (n : nat) : list Z :=
  match n with
  | O => []
  | S n' => a :: zdown (a - 1) n'
  end.

(** The rows probed in column [i] of the serpentine, in order: the first
    column runs upward from row 1, then the direction alternates. *)
Definition column (ny i : Z) : list Z :=
  if i =? 0 then zup 1 (Z.to_nat (ny - 1))
  else if Z.odd i then zdown (ny - 1) (Z.to_nat ny)
  else zup 0 (Z.to_nat ny).

(** The row and the direction with which the traversal enters column
    [i]. *)
Definition column_start (ny i : Z) : Z :=
  if i =? 0 then 1 else if Z.odd i then ny - 1 else 0.

Definition column_step (i : Z) : Z := if Z.odd i then -1 else 1.

Definition serpentine (nx ny : Z) : list (Z * Z) :=
  flat_map (fun i => map (pair i) (column ny i)) (zup 0 (Z.to_nat nx)).

(** [l] occurs in [t] as a run of consecutive tokens. *)
Definition Emitted {A : Type} (l t : list A) : Prop :=
  exists pre post, t = pre ++ l ++ post.

Section SpecSide.
Context {D : Type} `{DoubleOps D}.


(** The probe-and-store of grid point [(i, j)]: move to the probe
    height, move over the point, probe, store the result in
    [#(i * numYPoints + j + 500)]. *)
Definition probeAndStore (st : autoleveller D) (ij : Z * Z) : text D :=
  let c := conf st in
  let '(i, j) := ij in
  [Lit "G0 Z"] ++ zprobe c ++ [endl]
  ++ [Lit "X"; Dbl (dadd (dmul (dofZ i) (XProbeDist st)) (startPointX st));
      Lit " Y"; Dbl (dadd (dmul (dofZ j) (YProbeDist st)) (startPointY st));
      endl]
  ++ [Lit (probeCodeCustom c); Lit " Z"] ++ zfail c ++ [Lit " F"]
  ++ feedrate c ++ [endl]
  ++ [Lit "#"; Int (i * numYPoints st + j + 500)] ++ [Lit "="]
  ++ zProbeResultVarCustom c ++ [endl].

(** [m] is a least (greatest) element of [xs] for [operator<]. *)
Definition is_least (xs : list D) (m : D) : Prop :=
  In m xs /\ forall x, In x xs -> dltb x m = false.

Definition is_greatest (xs : list D) (m : D) : Prop :=
  In m xs /\ forall x, In x xs -> dltb m x = false.

End SpecSide.

(* ================================================================== *)
(** ** Concrete objects, on binary64 doubles *)

Module Scenario.
Import Binary64.

Definition options (sw : string) (al_x al_y zwork zsafe : double)
  : Options double :=
  {| o_metric := false; o_metricoutput := false;
     o_al_probecode := "G31"; o_al_probevar := 2002;
     o_al_setzzero := "G92 Z0";
     o_al_x := al_x; o_al_y := al_y;
     o_zwork := zwork; o_zsafe := zsafe;
     o_al_probefeed := of_Z 100; o_al_2ndprobefeed := None;
     o_al_probe_on := "(probe on)"; o_al_probe_off := "(probe off)";
     o_software := sw |}.

Definition single_tile : TileInfo double :=
  {| enabled := false; boardWidth := of_Z 0; boardHeight := of_Z 0;
     tileX := 1; tileY := 1 |}.

(** Fail depths of -3 (mm) and -0.1 (inch). *)
Definition fail_mm : double := of_Z (-3).
Definition fail_in : double := dec (-1) 1.

Definition settings_of (o : Options double) : settings double :=
  fst (fst (make_settings fail_mm fail_in o 100 1
              (of_Z 0) (of_Z 0) (of_Z 0) single_tile)).

(** A freshly constructed object; the grid members hold zeros and the
    cursor is the origin. *)
Definition fresh (o : Options double) : autoleveller double :=
  {| conf := settings_of o;
     startPointX := of_Z 0; startPointY := of_Z 0;
     numXPoints := 0; numYPoints := 0;
     XProbeDist := of_Z 0; YProbeDist := of_Z 0;
     averageProbeDist := of_Z 0;
     lastPoint := (of_Z 0, of_Z 0) |}.

(** The object after [prepareWorkarea]. *)
Definition planned (o : Options double) (toolpaths : list (icoords double))
  : autoleveller double :=
  match prepareWorkarea (fresh o) toolpaths with
  | Some (_, st) => st
  | None => fresh o
  end.

(** One path from the origin to [(x, y)]. *)
Definition diagonal (x y : Z) : list (icoords double) :=
  [[(of_Z 0, of_Z 0); (of_Z x, of_Z y)]].

(** Spacing 10 x 10 on a 100 x 80 workarea. *)
Definition opts_10 (sw : string) : Options double :=
  options sw (of_Z 10) (of_Z 10) (dec (-5) 2) (of_Z 2).

Definition grid_100x80 : autoleveller double :=
  planned (opts_10 "linuxcnc") (diagonal 100 80).

(** Unit spacing: grids of 7 x 643 = 4501 and 2 x 2251 = 4502 points
    (LinuxCNC), 20 x 25 = 500 and 3 x 167 = 501 points (Mach3). *)
Definition opts_1 (sw : string) : Options double :=
  options sw (of_Z 1) (of_Z 1) (dec (-5) 2) (of_Z 2).

(** A Custom-dialect grid of 3 x 3 points with spacing 10. *)
Definition custom_grid : autoleveller double :=
  planned (opts_10 "custom") (diagonal 20 20).

(** A table of heights: slot 505 holds 2.5, every other slot 1. *)
Definition heights : store (D := double) :=
  fun k => if k =? 505 then dec 25 1 else of_Z 1.

(** Two configurations that differ in both depths they set. *)
Definition opts_a : Options double :=
  options "custom" (of_Z 10) (of_Z 10) (dec (-5) 2) (of_Z 2).
Definition opts_b : Options double :=
  options "custom" (of_Z 10) (of_Z 10) (dec (-15) 2) (of_Z 5).

End Scenario.

(* ================================================================== *)
(** ** Concrete objects, in exact arithmetic *)

Module ExactScenario.
Import Exact.

Definition options : Options ereal :=
  {| o_metric := false; o_metricoutput := false;
     o_al_probecode := "G31"; o_al_probevar := 2002;
     o_al_setzzero := "G92 Z0";
     o_al_x := Fin 10; o_al_y := Fin 10;
     o_zwork := Fin (-1); o_zsafe := Fin 2;
     o_al_probefeed := Fin 100; o_al_2ndprobefeed := None;
     o_al_probe_on := "(probe on)"; o_al_probe_off := "(probe off)";
     o_software := "custom" |}.

Definition single_tile : TileInfo ereal :=
  {| enabled := false; boardWidth := Fin 0; boardHeight := Fin 0;
     tileX := 1; tileY := 1 |}.

Definition settings_of : settings ereal :=
  fst (fst (make_settings (Fin (-3)) (Fin (-1 / 10)) options 100 1
              (Fin 0) (Fin 0) (Fin 0) single_tile)).

(** A grid of 3 x 3 points with spacing 10 from the origin, the cursor
    at the origin. *)
Definition grid : autoleveller ereal :=
  {| conf := settings_of;
     startPointX := Fin 0; startPointY := Fin 0;
     numXPoints := 3; numYPoints := 3;
     XProbeDist := Fin 10; YProbeDist := Fin 10;
     averageProbeDist := Fin 10;
     lastPoint := (Fin 0, Fin 0) |}.

(** One path from the origin to (100, 80). *)
Definition path : list (icoords ereal) :=
  [[(Fin 0, Fin 0); (Fin 100, Fin 80)]].

(** A table of heights: slot [k] holds [k / 100]. *)
Definition heights : store (D := ereal) := fun k => Fin (IZR k / 100).

End ExactScenario.

(** A table that holds finite values only. *)
Definition finite_store (s : store (D := Exact.ereal)) : Prop :=
  forall k, exists r, s k = Exact.Fin r.

(* ================================================================== *)
(** ** Tables of binary64 doubles *)

Module Table64.

(** Equal, or two zeros that differ in sign at most. *)
Definition same_value (x y : spec_float) : Prop :=
  x = y \/ exists sx sy, x = S754_zero sx /\ y = S754_zero sy.

Definition is_finite (x : spec_float) : bool :=
  match x with
  | S754_zero _ | S754_finite _ _ _ => true
  | _ => false
  end.

(** A table of finite values whose differences are finite too. *)
Definition tame (s : store (D := Binary64.double)) : Prop :=
  forall j k,
    is_finite (s k) = true
    /\ is_finite (SFsub Binary64.prec Binary64.emax (s j) (s k)) = true.

(** Every slot of [s'] holds the value of some slot of [s]. *)
Definition shadow (s s' : store (D := Binary64.double)) : Prop :=
  forall k, exists k', same_value (s' k) (s k').

End Table64.

(* ================================================================== *)
(** ** The order of binary64 doubles *)

Module Order64.

(** A key whose lexicographic order is the order of the doubles that
    are not NaN: the class of the value, then exponent and mantissa,
    negated for a negative value. *)
Definition key (x : spec_float) : Z * Z * Z :=
  match x with
  | S754_infinity true => (-2, 0, 0)
  | S754_finite true m e => (-1, - e, - Zpos m)
  | S754_zero _ => (0, 0, 0)
  | S754_finite false m e => (1, e, Zpos m)
  | S754_infinity false => (2, 0, 0)
  | S754_nan => (3, 0, 0)
  end.

Definition lexlt (a b : Z * Z * Z) : Prop :=
  let '(c1, e1, m1) := a in
  let '(c2, e2, m2) := b in
  c1 < c2 \/ (c1 = c2 /\ (e1 < e2 \/ (e1 = e2 /\ m1 < m2))).

Definition not_nan (x : spec_float) : Prop := x <> S754_nan.

(** [operator<] and its converse. *)
Definition lt (a b : spec_float) : bool := SFltb a b.
Definition gt (a b : spec_float) : bool := SFltb b a.

(** The scan of [std::min_element] and of [std::max_element] for an
    arbitrary comparison. *)
Fixpoint extreme_from (cmp : spec_float -> spec_float -> bool)
    (proj : icoordpair spec_float -> spec_float)
    (best : icoordpair spec_float) (l : icoords spec_float)
  : icoordpair spec_float :=
  match l with
  | [] => best
  | p :: l' =>
      extreme_from cmp proj (if cmp (proj p) (proj best) then p else best) l'
  end.

(** [m] is extreme in [xs]: no element of [xs] comes before it. *)
Definition extreme (cmp : spec_float -> spec_float -> bool)
    (xs : list spec_float) (m : spec_float) : Prop :=
  In m xs /\ forall x, In x xs -> cmp x m = false.

(** [std::min] and [std::max] for an arbitrary comparison. *)
Definition pick (cmp : spec_float -> spec_float -> bool)
    (a b : spec_float) : spec_float :=
  if cmp b a then b else a.

(** What [scan_paths] does to one of its four coordinates. *)
Fixpoint scan_coord (cmp : spec_float -> spec_float -> bool)
    (proj : icoordpair spec_float -> spec_float)
    (toolpaths : list (icoords spec_float)) (w : spec_float) : spec_float :=
  match toolpaths with
  | [] => w
  | path :: rest =>
      scan_coord cmp proj rest
        (match path with
         | [] => w
         | p :: l => pick cmp w (proj (extreme_from cmp proj p l))
         end)
  end.

(** A comparison that is a strict weak order on the doubles that are
    not NaN. *)
Definition weak_order (cmp : spec_float -> spec_float -> bool) : Prop :=
  (forall a, not_nan a -> cmp a a = false)
  /\ (forall a b c, not_nan a -> not_nan b -> not_nan c ->
                    cmp a b = true -> cmp b c = true -> cmp a c = true)
  /\ (forall a b c, not_nan a -> not_nan b -> not_nan c ->
                    cmp a c = true -> cmp a b = true \/ cmp b c = true).

End Order64.

(* ================================================================== *)
(** ** Further definitions *)

(** A Custom-dialect grid of 3 x 3 points with spacing 10 whose global
    variables are numbered from 100. *)
Definition custom_grid_100 : autoleveller Binary64.double :=
  {| conf := fst (fst (make_settings Scenario.fail_mm Scenario.fail_in
                         (Scenario.opts_10 "custom") 1 100
                         (Binary64.of_Z 0) (Binary64.of_Z 0)
                         (Binary64.of_Z 0) Scenario.single_tile));
     startPointX := Binary64.of_Z 0; startPointY := Binary64.of_Z 0;
     numXPoints := 3; numYPoints := 3;
     XProbeDist := Binary64.of_Z 10; YProbeDist := Binary64.of_Z 10;
     averageProbeDist := Binary64.of_Z 10;
     lastPoint := (Binary64.of_Z 0, Binary64.of_Z 0) |}.

(** The string with its upper-case letters lowered. *)
Fixpoint lower (s : string) : string :=
  match s with
  | EmptyString => EmptyString
  | String c s' => String (to_lower c) (lower s')
  end.

(** A value of the extended reals that is a real number. *)
Definition is_fin (x : Exact.ereal) : bool :=
  match x with
  | Exact.Fin _ => true
  | _ => false
  end.

(** The table slot of grid point [(a, b)]: the number [getVarName]
    prints, as an integer without bound. *)
Definition slot {D : Type} (st : autoleveller D) (a b : Z) : Z :=
  a * numYPoints st + b + 500.

(** Two grid points next to each other in a column or in a row. *)
Definition neighbours (p q : Z * Z) : Prop :=
  Z.abs (fst p - fst q) + Z.abs (snd p - snd q) = 1.

(** Each point of [l] is a neighbour of the one before it, the first one
    of [p]. *)
Fixpoint chain (p : Z * Z) (l : list (Z * Z)) : Prop :=
  match l with
  | [] => True
  | q :: l' => neighbours p q /\ chain q l'
  end.

(** The last point probed in column [i] of the serpentine. *)
Definition column_end (ny i : Z) : Z * Z :=
  (i, if Z.odd i then 0 else ny - 1).

(** The point a path that starts at [p] and runs through [l] ends at. *)
Fixpoint path_end (p : Z * Z) (l : list (Z * Z)) : Z * Z :=
  match l with
  | [] => p
  | q :: l' => path_end q l'
  end.




(** A Mach3 configuration without a probe feed rate, with a second
    probing pass, and an object that holds it with a grid of 3 x 3
    points. *)
Definition options_without_probefeed : Options Binary64.double :=
  {| o_metric := false; o_metricoutput := false;
     o_al_probecode := "G31"; o_al_probevar := 2002;
     o_al_setzzero := "G92 Z0";
     o_al_x := Binary64.of_Z 10; o_al_y := Binary64.of_Z 10;
     o_zwork := Binary64.dec (-5) 2; o_zsafe := Binary64.of_Z 2;
     o_al_probefeed := Binary64.of_Z 0;
     o_al_2ndprobefeed := Some (Binary64.of_Z 50);
     o_al_probe_on := "(probe on)"; o_al_probe_off := "(probe off)";
     o_software := "Mach3" |}.

Definition grid_without_probefeed : autoleveller Binary64.double :=
  {| conf := fst (fst (make_settings Scenario.fail_mm Scenario.fail_in
                         options_without_probefeed 1 100
                         (Binary64.of_Z 0) (Binary64.of_Z 0)
                         (Binary64.of_Z 0) Scenario.single_tile));
     startPointX := Binary64.of_Z 0; startPointY := Binary64.of_Z 0;
     numXPoints := 3; numYPoints := 3;
     XProbeDist := Binary64.of_Z 10; YProbeDist := Binary64.of_Z 10;
     averageProbeDist := Binary64.of_Z 10;
     lastPoint := (Binary64.of_Z 0, Binary64.of_Z 0) |}.


(* ================================================================== *)
(** ** Auxiliary lemmas *)

Lemma bind_Some {A B : Type} (m : option A) (f : A -> option B) (b : B) :
  bind m f = Some b -> exists a, m = Some a /\ f a = Some b.
Proof.
  destruct m as [a|]; simpl; intros E; [eauto | discriminate].
Qed.

Lemma Some_eq_inv {A : Type} (a b : A) : Some a = Some b -> a = b.
Proof. congruence. Qed.

Lemma Some_pair_inv {A B : Type} (a c : A) (b d : B) :
  Some (a, b) = Some (c, d) -> a = c /\ b = d.
Proof. intros E. split; congruence. Qed.

(** Decomposes a hypothesis [x <- m ;; k = Some y]. *)
Ltac bind_inv H :=
  let a := fresh "v" in
  let E := fresh "E" in
  apply bind_Some in H; destruct H as (a & E & H).

Lemma int_Some (z r : Z) :
  int z = Some r -> r = z /\ INT_MIN <= z <= INT_MAX.
Proof.
  unfold int, in_int. destruct (_ && _) eqn:E; intros Hr; inversion Hr.
  apply andb_true_iff in E. destruct E as [E1 E2].
  apply Z.leb_le in E1, E2. lia.
Qed.

Lemma int_fits (z : Z) : INT_MIN <= z <= INT_MAX -> int z = Some z.
Proof.
  intros Hz. unfold int, in_int.
  destruct (INT_MIN <=? z) eqn:E1; destruct (z <=? INT_MAX) eqn:E2;
    simpl; try reflexivity;
    (apply Z.leb_gt in E1 || apply Z.leb_gt in E2); lia.
Qed.

Lemma Software_eqb_eq (a b : Software) : Software_eqb a b = true <-> a = b.
Proof. destruct a, b; simpl; split; intros E; congruence. Qed.

Lemma too_many_points_ceiling (s : Software) (n : Z) :
  too_many_points s n = true <-> ceiling s < n.
Proof.
  unfold too_many_points, ceiling.
  destruct s; simpl; rewrite ?orb_false_r; apply Z.ltb_lt.
Qed.


(** *** Exact arithmetic *)

Module ExactFacts.
Import Exact.
Open Scope R_scope.


Lemma Reqb_false (a b : R) : Reqb a b = false <-> a <> b.
Proof. unfold Reqb. destruct (Req_dec_T a b); split; congruence. Qed.

Lemma Rltb_true (a b : R) : Rltb a b = true <-> a < b.
Proof. unfold Rltb. destruct (Rlt_dec a b); split; congruence. Qed.

Lemma Rltb_false (a b : R) : Rltb a b = false <-> b <= a.
Proof.
  unfold Rltb. destruct (Rlt_dec a b); split; try congruence; lra.
Qed.



(** [Int_part] is the floor. *)
Lemma Int_part_bounds (r : R) : IZR (Int_part r) <= r < IZR (Int_part r) + 1.
Proof. destruct (base_Int_part r). lra. Qed.

Lemma Int_part_unique (r : R) (z : Z) :
  IZR z <= r < IZR z + 1 -> Int_part r = z.
Proof.
  intros Hz. symmetry. apply Int_part_spec. lra.
Qed.

Lemma Int_part_IZR (z : Z) : Int_part (IZR z) = z.
Proof. apply Int_part_unique. lra. Qed.





End ExactFacts.

(** *** Lists *)


Section SplitFacts.
Context {D : Type} `{DoubleOps D}.



End SplitFacts.

Module SplitExact.
Import Exact ExactFacts.
Open Scope R_scope.


End SplitExact.

Module CeilExact.
Import Exact ExactFacts.
Open Scope R_scope.

Lemma Rtrunc_IZR (z : Z) : Rtrunc (IZR z) = z.
Proof.
  unfold Rtrunc. destruct (Rleb 0 (IZR z)).
  - apply Int_part_IZR.
  - rewrite <- opp_IZR, Int_part_IZR. lia.
Qed.


Lemma Rceil_zero_iff (q : R) : 0 <= q -> (Rceil q = 0%Z <-> q = 0).
Proof.
  intros Hq. unfold Rceil. split.
  - intros E. assert (E0 : Int_part (- q) = 0%Z) by lia.
    destruct (Int_part_bounds (- q)) as [Hlo Hhi]. rewrite E0 in Hlo.
    lra.
  - intros ->. rewrite Ropp_0. change 0 with (IZR 0).
    rewrite Int_part_IZR. reflexivity.
Qed.


(** The distance of two finite points. *)
Lemma distance_exact (ax ay bx by_ : R) :
  distance (Fin ax, Fin ay) (Fin bx, Fin by_)
  = Fin (sqrt ((ax - bx) * (ax - bx) + (ay - by_) * (ay - by_))).
Proof.
  unfold distance. cbn [fst snd dsqrt dadd dsub dmul ops].
  cbn [esub eopp eadd emul esqrt].
  assert (E : Rltb ((ax + - bx) * (ax + - bx) + (ay + - by_) * (ay + - by_))
                0 = false).
  { apply Rltb_false.
    pose proof (Rle_0_sqr (ax + - bx)). pose proof (Rle_0_sqr (ay + - by_)).
    unfold Rsqr in *. lra. }
  rewrite E. reflexivity.
Qed.



End CeilExact.

(** *** A run of the planner in exact arithmetic *)

Module ExactRun.
Import Exact ExactFacts.





End ExactRun.


(** *** The correction formula *)

Section InterpolationText.
Context {D : Type} `{DoubleOps D}.

(** The text of [interpolatePoint] is the printed form of the three
    assignments of [interpolation]. *)
Lemma interpolatePoint_prints (st : autoleveller D) (point : icoordpair D)
    (prog : list (gassign D)) :
  interpolation st point = Some prog ->
  interpolatePoint st point = Some (print_program prog).
Proof.
  unfold interpolation, interpolatePoint, getVarName. intros E.
  bind_inv E. bind_inv E. bind_inv E. bind_inv E.
  bind_inv E. bind_inv E. bind_inv E. bind_inv E.
  rewrite E0, E1. simpl. rewrite E2, E3. simpl.
  rewrite E4, E5, E6, E7. simpl.
  inversion E; subst prog. reflexivity.
Qed.

End InterpolationText.

Module BlendExact.
Import Exact ExactFacts.
Open Scope R_scope.

Lemma pow10_nonzero (p : nat) : IZR (10 ^ Z.of_nat p) <> 0.
Proof.
  intros E0. apply eq_IZR_R0 in E0.
  assert (0 < 10 ^ Z.of_nat p)%Z by (apply Z.pow_pos_nonneg; lia).
  lia.
Qed.

(** A zero offset is printed, and read back, as zero. *)
Lemma fixed_value_zero (p : nat) : fixed_value p (Fin 0) = Fin 0.
Proof.
  unfold fixed_value. cbn [dmul dofZ ops emul].
  replace (0 * IZR (10 ^ Z.of_nat p)) with 0 by ring.
  assert (Er : round_half_even (Fin 0) = Fin 0).
  { unfold round_half_even. cbn [dfloor dsub ddiv dofZ dltb ops lift_int].
    unfold Rfloor. change 0 with (IZR 0) at 1 2 3. rewrite Int_part_IZR.
    cbn [esub eopp eadd ediv eltb].
    assert (E2 : Reqb 2 0 = false) by (apply Reqb_false; lra).
    rewrite E2.
    assert (Elt : Rltb (0 + - 0) (1 / 2) = true) by (apply Rltb_true; lra).
    rewrite Elt. reflexivity. }
  rewrite Er. cbn [ddiv ops ediv].
  assert (E : Reqb (IZR (10 ^ Z.of_nat p)) 0 = false)
    by (apply Reqb_false, pow10_nonzero).
  rewrite E. f_equal. unfold Rdiv. ring.
Qed.

(** With a zero fraction the blend of two finite values is the first
    one. *)
Lemma eval_blend_zero (s : store (D := ereal)) (lo hi : Z) :
  finite_store s -> eval s (blend lo hi (Fin 0)) = s lo.
Proof.
  intros Hs. unfold blend. cbn [eval]. rewrite fixed_value_zero.
  destruct (Hs lo) as (c & ->), (Hs hi) as (a & ->).
  cbn [dadd dsub dmul ops esub eopp eadd emul]. f_equal. ring.
Qed.

Lemma finite_store_update (s : store (D := ereal)) (n k : Z) :
  finite_store s -> finite_store (update s n (s k)).
Proof.
  intros Hs j. unfold update. destruct (j =? n)%Z; apply Hs.
Qed.

End BlendExact.

(** *** Tables of binary64 doubles *)

Module Table64Facts.
Import Binary64 Table64.

Lemma fixed_value_signed_zero (s : bool) :
  fixed_value 5 (S754_zero s) = S754_zero s.
Proof. destruct s; vm_compute; reflexivity. Qed.

Lemma same_value_refl (x : spec_float) : same_value x x.
Proof. left. reflexivity. Qed.

Lemma same_value_trans (x y z : spec_float) :
  same_value x y -> same_value y z -> same_value x z.
Proof.
  intros [-> | (sx & sy & -> & ->)] [<- | (sy' & sz & E & ->)];
    unfold same_value; eauto 7.
Qed.

Lemma same_value_finite (x y : spec_float) :
  same_value x y -> is_finite x = is_finite y.
Proof. intros [-> | (sx & sy & -> & ->)]; reflexivity. Qed.

Lemma same_value_sub (x x' y y' : spec_float) :
  same_value x x' -> same_value y y' ->
  is_finite (SFsub prec emax x y) = is_finite (SFsub prec emax x' y').
Proof.
  intros [-> | (sx & sx' & -> & ->)] [-> | (sy & sy' & -> & ->)];
    try reflexivity.
  - destruct x' as [s|s| |s m e]; try reflexivity;
      destruct s, sy, sy'; reflexivity.
  - destruct y' as [s|s| |s m e]; try reflexivity.
    destruct sx, sx', s; reflexivity.
  - destruct sx, sx', sy, sy'; reflexivity.
Qed.

(** With a zero fraction the blend of [c] and [a] has the value of [c],
    as long as [c] and the difference [a - c] are finite. *)
Lemma blend_zero (c a : spec_float) (s : bool) :
  is_finite c = true -> is_finite (SFsub prec emax a c) = true ->
  same_value
    (SFadd prec emax c
       (SFmul prec emax (SFsub prec emax a c) (S754_zero s))) c.
Proof.
  intros Hc Hd.
  destruct (SFsub prec emax a c) as [sd|sd| |sd md ed];
    try discriminate Hd; cbn [SFmul];
    (destruct c as [sc|sc| |sc mc ec]; try discriminate Hc;
     [right; cbn [SFadd]; destruct sc, (xorb sd s); eauto
     | left; reflexivity]).
Qed.

Lemma same_value_eqb (x y : spec_float) :
  is_finite x = true -> same_value x y -> SFeqb x y = true.
Proof.
  intros Hx [<- | (sx & sy & -> & ->)]; [|reflexivity].
  destruct x as [s|s| |s m e]; try discriminate Hx; [reflexivity|].
  unfold SFeqb, SFcompare. rewrite Z.compare_refl.
  change (Pos.compare_cont Eq m m) with (Pos.compare m m).
  rewrite Pos.compare_refl. destruct s; reflexivity.
Qed.

Lemma eval_blend_shadow (s s' : store (D := double)) (lo hi : Z)
    (sf : bool) :
  tame s -> shadow s s' ->
  same_value (eval s' (blend lo hi (S754_zero sf))) (s' lo).
Proof.
  intros Ht Hs. unfold blend. cbn [eval]. rewrite fixed_value_signed_zero.
  destruct (Hs lo) as (klo & Hlo), (Hs hi) as (khi & Hhi).
  apply blend_zero.
  - rewrite (same_value_finite Hlo). apply (Ht klo klo).
  - cbn [dsub ops]. rewrite (same_value_sub Hhi Hlo). apply (Ht khi klo).
Qed.

Lemma shadow_update (s s' : store (D := double)) (n : Z) (v : double) :
  shadow s s' -> (exists k', same_value v (s k')) ->
  shadow s (update s' n v).
Proof.
  intros Hs Hv k. unfold update. destruct (k =? n); [exact Hv | apply Hs].
Qed.

Lemma shadow_refl (s : store (D := double)) : shadow s s.
Proof. intros k. exists k. apply same_value_refl. Qed.

(** The three assignments of [interpolatePoint] with zero fractions. *)
Lemma run_blends (s : store (D := double)) (ll ul lr ur : Z)
    (sx sy : bool) :
  tame s ->
  same_value
    (run [ {| target := 1; rhs := blend ll ul (S754_zero sy) |};
           {| target := 2; rhs := blend lr ur (S754_zero sy) |};
           {| target := 3; rhs := blend 1 2 (S754_zero sx) |} ] s 3)
    (s ll).
Proof.
  intros Ht. unfold run, exec. cbn [fold_left target rhs].
  set (v1 := eval s (blend ll ul (S754_zero sy))).
  set (s1 := update s 1 v1).
  set (v2 := eval s1 (blend lr ur (S754_zero sy))).
  set (s2 := update s1 2 v2).
  assert (H1 : same_value v1 (s ll))
    by exact (@eval_blend_shadow s s ll ul sy Ht (shadow_refl s)).
  assert (Hs1 : shadow s s1)
    by (apply shadow_update; [apply shadow_refl | eauto]).
  assert (H2 : same_value v2 (s1 lr))
    by exact (@eval_blend_shadow s s1 lr ur sy Ht Hs1).
  assert (Hs2 : shadow s s2).
  { apply shadow_update; [exact Hs1|]. destruct (Hs1 lr) as (k' & Hk').
    exists k'. exact (same_value_trans H2 Hk'). }
  assert (H3 : same_value (eval s2 (blend 1 2 (S754_zero sx))) (s2 1))
    by exact (@eval_blend_shadow s s2 1 2 sx Ht Hs2).
  unfold update at 1. cbn [Z.eqb Pos.eqb].
  apply (same_value_trans H3).
  unfold s2, update at 1. cbn [Z.eqb Pos.eqb].
  unfold s1, update. cbn [Z.eqb Pos.eqb]. exact H1.
Qed.

End Table64Facts.

Module IndexExact.
Import Exact ExactFacts.
Open Scope R_scope.

(** The cell index of a finite coordinate. *)
Lemma cell_index (p start dist : R) (z : Z) :
  dist <> 0 -> IZR z <= (p - start) / dist < IZR z + 1 ->
  double_to_int (dfloor (ddiv (dsub (Fin p) (Fin start)) (Fin dist)))
  = int z.
Proof.
  intros Hd Hz. cbn [dfloor ddiv dsub ops esub eopp eadd ediv].
  assert (E : Reqb dist 0 = false) by (apply Reqb_false; assumption).
  rewrite E. cbn [lift_int]. unfold double_to_int, Rfloor.
  cbn [dtrunc ops etrunc bind].
  rewrite CeilExact.Rtrunc_IZR.
  unfold Rminus in Hz. rewrite (@Int_part_unique _ z Hz). reflexivity.
Qed.

(** The fractional offset of a finite coordinate in its cell. *)
Lemma cell_offset (p start dist : R) (z : Z) :
  dist <> 0 ->
  ddiv (dsub (dsub (Fin p) (Fin start)) (dmul (dofZ z) (Fin dist)))
       (Fin dist)
  = Fin ((p - start - IZR z * dist) / dist).
Proof.
  intros Hd. cbn [ddiv dsub dmul dofZ ops esub eopp eadd emul ediv].
  assert (E : Reqb dist 0 = false) by (apply Reqb_false; assumption).
  rewrite E. reflexivity.
Qed.

End IndexExact.

(** *** The order of binary64 doubles *)

Module Order64Facts.
Import Order64.
Unset Implicit Arguments.

Lemma SFltb_key (a b : spec_float) :
  not_nan a -> not_nan b ->
  (SFltb a b = true <-> lexlt (key a) (key b)).
Proof.
  unfold not_nan, SFltb, SFcompare.
  destruct a as [sa|sa| |sa ma ea]; destruct b as [sb|sb| |sb mb eb];
    intros Ha Hb; try congruence;
    try destruct sa; try destruct sb; simpl;
    try (split; [discriminate | lia]);
    try (split; [lia | reflexivity]);
    change (Pos.compare_cont Eq ma mb) with (Pos.compare ma mb);
    destruct (Z.compare_spec ea eb);
    try destruct (Pos.compare_spec ma mb); simpl;
    split; intros; try discriminate; try reflexivity; lia.
Qed.

Lemma lexlt_trans (a b c : Z * Z * Z) : lexlt a b -> lexlt b c -> lexlt a c.
Proof.
  destruct a as [[? ?] ?], b as [[? ?] ?], c as [[? ?] ?]. simpl. lia.
Qed.

Lemma lexlt_cases (a b c : Z * Z * Z) :
  lexlt a c -> lexlt a b \/ lexlt b c.
Proof.
  destruct a as [[? ?] ?], b as [[? ?] ?], c as [[? ?] ?]. simpl. lia.
Qed.

Lemma lexlt_irrefl (a : Z * Z * Z) : ~ lexlt a a.
Proof. destruct a as [[? ?] ?]. simpl. lia. Qed.

Lemma SFltb_irrefl (a : spec_float) : not_nan a -> SFltb a a = false.
Proof.
  intros Ha. destruct (SFltb a a) eqn:E; [|reflexivity].
  apply SFltb_key in E; [|assumption..].
  exfalso. revert E. apply lexlt_irrefl.
Qed.

Lemma lt_weak_order : weak_order lt.
Proof.
  unfold lt. split; [exact SFltb_irrefl|]. split.
  - intros a b c Ha Hb Hc. rewrite !SFltb_key by assumption.
    apply lexlt_trans.
  - intros a b c Ha Hb Hc. rewrite !SFltb_key by assumption.
    apply lexlt_cases.
Qed.

Lemma gt_weak_order : weak_order gt.
Proof.
  unfold gt. split; [exact SFltb_irrefl|]. split.
  - intros a b c Ha Hb Hc. rewrite !SFltb_key by assumption.
    intros H1 H2. exact (lexlt_trans _ _ _ H2 H1).
  - intros a b c Ha Hb Hc. rewrite !SFltb_key by assumption.
    intros H1. destruct (lexlt_cases _ (key b) _ H1); tauto.
Qed.

Lemma lt_sentinel (x : spec_float) :
  not_nan x -> lt x (S754_infinity false) = false ->
  x = S754_infinity false.
Proof.
  unfold not_nan, lt, SFltb, SFcompare.
  destruct x as [s|[]| |[] m e]; simpl; congruence.
Qed.

Lemma gt_sentinel (x : spec_float) :
  not_nan x -> gt x (S754_infinity true) = false ->
  x = S754_infinity true.
Proof.
  unfold not_nan, gt, SFltb, SFcompare.
  destruct x as [s|[]| |[] m e]; simpl; congruence.
Qed.

Section Extremes.
Variable cmp : spec_float -> spec_float -> bool.
Hypothesis cmp_order : weak_order cmp.

Let irrefl := proj1 cmp_order.
Let trans := proj1 (proj2 cmp_order).
Let cases := proj2 (proj2 cmp_order).

Lemma cmp_false_trans (a b c : spec_float) :
  not_nan a -> not_nan b -> not_nan c ->
  cmp a b = false -> cmp b c = false -> cmp a c = false.
Proof.
  intros Ha Hb Hc Hab Hbc. destruct (cmp a c) eqn:E; [|reflexivity].
  destruct (cases a b c Ha Hb Hc E); congruence.
Qed.

Lemma cmp_asym (a b : spec_float) :
  not_nan a -> not_nan b -> cmp a b = true -> cmp b a = false.
Proof.
  intros Ha Hb Hab. destruct (cmp b a) eqn:E; [|reflexivity].
  rewrite <- (irrefl a Ha). symmetry. exact (trans a b a Ha Hb Ha Hab E).
Qed.

Lemma extreme_from_spec (proj : icoordpair spec_float -> spec_float)
  (l : icoords spec_float) :
  forall best,
  (forall p, In p (best :: l) -> not_nan (proj p)) ->
  In (extreme_from cmp proj best l) (best :: l)
  /\ forall x, In x (best :: l) ->
     cmp (proj x) (proj (extreme_from cmp proj best l)) = false.
Proof.
  induction l as [|p l IH]; intros best Hnn.
  - simpl. split; [auto|]. intros x [<- | []]. apply irrefl, Hnn. simpl; auto.
  - cbn [extreme_from].
    set (b' := if cmp (proj p) (proj best) then p else best).
    assert (Hb' : forall q, In q (b' :: l) -> not_nan (proj q)).
    { intros q [<- | Hq].
      - unfold b'. destruct (cmp _ _); apply Hnn; simpl; auto.
      - apply Hnn. simpl; auto. }
    destruct (IH b' Hb') as [Hin Hle].
    set (m := extreme_from cmp proj b' l) in *.
    assert (Hm : not_nan (proj m)) by (apply Hb'; exact Hin).
    assert (Hbest : not_nan (proj best)) by (apply Hnn; simpl; auto).
    assert (Hp : not_nan (proj p)) by (apply Hnn; simpl; auto).
    split.
    + destruct Hin as [<- | Hin].
      * unfold b'. destruct (cmp _ _); simpl; auto.
      * simpl; auto.
    + intros x [<- | [<- | Hx]].
      * unfold b' in *. destruct (cmp (proj p) (proj best)) eqn:E.
        -- destruct (cmp (proj best) (proj m)) eqn:E'; [|reflexivity].
           rewrite <- (Hle p (or_introl eq_refl)). symmetry.
           exact (trans _ _ _ Hp Hbest Hm E E').
        -- apply Hle. simpl; auto.
      * unfold b' in *. destruct (cmp (proj p) (proj best)) eqn:E.
        -- apply Hle. simpl; auto.
        -- apply (cmp_false_trans _ _ _ Hp Hbest Hm E).
           apply Hle. simpl; auto.
      * apply Hle. simpl; auto.
Qed.

(** The extreme of a list extended by one value in front. *)
Lemma extreme_cons_pick (a m : spec_float) (xs : list spec_float) :
  not_nan a -> (forall x, In x xs -> not_nan x) ->
  extreme cmp xs m ->
  extreme cmp (a :: xs) (if cmp m a then m else a).
Proof.
  intros Ha Hxs [Hin Hle].
  assert (Hm : not_nan m) by (apply Hxs; exact Hin).
  destruct (cmp m a) eqn:E; split; simpl; auto.
  - intros x [<- | Hx]; [apply cmp_asym; assumption | auto].
  - intros x [<- | Hx]; [apply irrefl; assumption|].
    apply (cmp_false_trans _ _ _ (Hxs x Hx) Hm Ha); auto.
Qed.

Lemma extreme_app (a r : spec_float) (xs ys : list spec_float) :
  (forall x, In x (xs ++ ys) -> not_nan x) ->
  extreme cmp xs a -> extreme cmp (a :: ys) r ->
  extreme cmp (xs ++ ys) r.
Proof.
  intros Hnn [Hina Hlea] [Hinr Hler].
  assert (Ha : not_nan a) by (apply Hnn, in_or_app; auto).
  assert (Hr : not_nan r).
  { destruct Hinr as [<- | Hinr]; [assumption|].
  apply Hnn, in_or_app; auto. }
  split.
  - apply in_or_app. destruct Hinr as [<- | Hinr]; auto.
  - intros x Hx. apply in_app_or in Hx. destruct Hx as [Hx | Hx].
    + apply (cmp_false_trans _ _ _
               (Hnn x (in_or_app _ _ _ (or_introl Hx))) Ha Hr);
        [auto | apply Hler; simpl; auto].
    + apply Hler. simpl; auto.
Qed.

(** A sentinel below which nothing lies can be dropped from a list
  that has other elements. *)
Lemma extreme_drop_sentinel (s r : spec_float) (xs : list spec_float) :
  (forall x, not_nan x -> cmp x s = false -> x = s) ->
  (forall x, In x xs -> not_nan x) ->
  xs <> [] -> extreme cmp (s :: xs) r -> extreme cmp xs r.
Proof.
  intros Hs Hnn Hne [Hin Hle]. split.
  - destruct Hin as [<- | Hin]; [|assumption].
    destruct xs as [|x xs]; [congruence|].
    rewrite <- (Hs x); [simpl; auto | apply Hnn; simpl; auto|].
    apply Hle. simpl; auto.
  - intros x Hx. apply Hle. simpl; auto.
Qed.

Lemma scan_coord_extreme (proj : icoordpair spec_float -> spec_float)
  (toolpaths : list (icoords spec_float)) :
  forall w,
  not_nan w ->
  (forall path, In path toolpaths -> path <> []) ->
  (forall x, In x (map proj (List.concat toolpaths)) -> not_nan x) ->
  extreme cmp (w :: map proj (List.concat toolpaths))
  (scan_coord cmp proj toolpaths w).
Proof.
  induction toolpaths as [|path rest IH]; intros w Hw Hne Hnn.
  - unfold extreme. simpl. split; [auto|].
    intros x [<- | []]. apply irrefl, Hw.
  - destruct path as [|p l]; [destruct (Hne [] (or_introl eq_refl) eq_refl)|].
    cbn [scan_coord]. rewrite concat_cons, map_app in *.
    set (m1 := proj (extreme_from cmp proj p l)).
    assert (Hpl : forall q, In q (p :: l) -> not_nan (proj q)).
    { intros q Hq. apply Hnn, in_or_app. left. apply in_map. exact Hq. }
    destruct (extreme_from_spec proj l p Hpl) as [Hin Hle].
    assert (Hm1 : extreme cmp (map proj (p :: l)) m1).
    { split; [apply in_map; exact Hin|].
      intros x Hx. apply in_map_iff in Hx. destruct Hx as (q & <- & Hq).
      apply Hle. exact Hq. }
    assert (Hw1 : extreme cmp (w :: map proj (p :: l)) (pick cmp w m1)).
    { unfold pick. apply extreme_cons_pick; [exact Hw | | exact Hm1].
      intros x Hx. apply Hnn, in_or_app. auto. }
    assert (Hnn1 : not_nan (pick cmp w m1)).
    { destruct Hw1 as [[<- | Hi] _]; [exact Hw|].
      apply Hnn, in_or_app. auto. }
    assert (Hrest : extreme cmp
                      (pick cmp w m1 :: map proj (List.concat rest))
                      (scan_coord cmp proj rest (pick cmp w m1))).
    { apply IH; [exact Hnn1 | |].
      - intros q Hq. apply Hne. simpl; auto.
      - intros x Hx. apply Hnn, in_or_app. auto. }
    change (w :: map proj (p :: l) ++ map proj (List.concat rest))
      with ((w :: map proj (p :: l)) ++ map proj (List.concat rest)).
    apply (extreme_app (pick cmp w m1)); [| exact Hw1 | exact Hrest].
    intros x [<- | Hx]; [exact Hw | apply Hnn; exact Hx].
Qed.

End Extremes.

(** The scans of [std::min_element] and [std::max_element] on binary64
    doubles. *)
Lemma min_element_from_extreme (proj : icoordpair spec_float -> spec_float)
    (l : icoords spec_float) :
  forall best,
    min_element_from proj best l = extreme_from lt proj best l.
Proof.
  induction l as [|p l IH]; intros best; [reflexivity|].
  cbn [min_element_from extreme_from]. rewrite IH. reflexivity.
Qed.

Lemma max_element_from_extreme (proj : icoordpair spec_float -> spec_float)
    (l : icoords spec_float) :
  forall best,
    max_element_from proj best l = extreme_from gt proj best l.
Proof.
  induction l as [|p l IH]; intros best; [reflexivity|].
  cbn [max_element_from extreme_from]. rewrite IH. reflexivity.
Qed.

(** [scan_paths] coordinate by coordinate. *)
Lemma scan_paths_coords (toolpaths : list (icoords spec_float)) :
  forall w : workarea_t,
    (forall path, In path toolpaths -> path <> []) ->
    scan_paths toolpaths w
    = Some ((scan_coord lt fst toolpaths (fst (fst w)),
             scan_coord lt snd toolpaths (snd (fst w))),
            (scan_coord gt fst toolpaths (fst (snd w)),
             scan_coord gt snd toolpaths (snd (snd w)))).
Proof.
  induction toolpaths as [|path rest IH]; intros w Hne.
  - destruct w as [[? ?] [? ?]]. reflexivity.
  - destruct path as [|p l]; [destruct (Hne [] (or_introl eq_refl) eq_refl)|].
    cbn [scan_paths min_element max_element bind].
    rewrite IH by (intros q Hq; apply Hne; simpl; auto).
    cbn [fst snd scan_coord].
    rewrite !min_element_from_extreme, !max_element_from_extreme.
    reflexivity.
Qed.

Set Implicit Arguments.

End Order64Facts.

(** *** The serpentine *)

Lemma in_zup (n : nat) : forall a j, In j (zup a n) <-> a <= j < a + Z.of_nat n.
Proof.
  induction n as [|n IH]; intros a j; cbn [zup In].
  - lia.
  - rewrite IH. lia.
Qed.

Lemma in_zdown (n : nat) :
  forall a j, In j (zdown a n) <-> a - Z.of_nat n < j <= a.
Proof.
  induction n as [|n IH]; intros a j; cbn [zdown In].
  - lia.
  - rewrite IH. lia.
Qed.

Lemma NoDup_zup (n : nat) : forall a, NoDup (zup a n).
Proof.
  induction n as [|n IH]; intros a; cbn [zup]; constructor; [|apply IH].
  rewrite in_zup. lia.
Qed.

Lemma NoDup_zdown (n : nat) : forall a, NoDup (zdown a n).
Proof.
  induction n as [|n IH]; intros a; cbn [zdown]; constructor; [|apply IH].
  rewrite in_zdown. lia.
Qed.

Lemma in_column (ny i j : Z) :
  1 <= ny -> 0 <= i ->
  (In j (column ny i) <-> 0 <= j < ny /\ (i = 0 -> j <> 0)).
Proof.
  intros Hny Hi. unfold column.
  destruct (i =? 0) eqn:E0; [apply Z.eqb_eq in E0 | apply Z.eqb_neq in E0].
  - rewrite in_zup. lia.
  - destruct (Z.odd i); [rewrite in_zdown | rewrite in_zup]; lia.
Qed.

Lemma NoDup_column (ny i : Z) : NoDup (column ny i).
Proof.
  unfold column. destruct (i =? 0); [apply NoDup_zup|].
  destruct (Z.odd i); [apply NoDup_zdown | apply NoDup_zup].
Qed.

Lemma NoDup_map_pair (i : Z) (l : list Z) : NoDup l -> NoDup (map (pair i) l).
Proof.
  induction 1 as [|j l Hj Hl IH]; cbn [map]; constructor; [|exact IH].
  rewrite in_map_iff. intros (k & E & Hk). inversion E; subst. contradiction.
Qed.

Lemma in_columns (ny : Z) (cols : list Z) (i j : Z) :
  In (i, j) (flat_map (fun i' => map (pair i') (column ny i')) cols)
  <-> In i cols /\ In j (column ny i).
Proof.
  rewrite in_flat_map. split.
  - intros (i' & Hi' & Hij). apply in_map_iff in Hij.
    destruct Hij as (j' & E & Hj'). inversion E; subst. auto.
  - intros [Hi Hj]. exists i. split; [exact Hi|].
    apply in_map. exact Hj.
Qed.

Lemma NoDup_columns (ny : Z) (cols : list Z) :
  NoDup cols ->
  NoDup (flat_map (fun i' => map (pair i') (column ny i')) cols).
Proof.
  induction 1 as [|i cols Hi Hcols IH]; cbn [flat_map]; [constructor|].
  apply NoDup_app; [apply NoDup_map_pair, NoDup_column | exact IH |].
  intros [i' j'] Hin Hin'. apply in_map_iff in Hin.
  destruct Hin as (k & E & _). inversion E; subst.
  apply in_columns in Hin'. tauto.
Qed.

Lemma in_serpentine (nx ny i j : Z) :
  0 <= nx -> 1 <= ny ->
  (In (i, j) (serpentine nx ny)
   <-> 0 <= i < nx /\ 0 <= j < ny /\ (i, j) <> (0, 0)).
Proof.
  intros Hnx Hny. unfold serpentine. rewrite in_columns, in_zup. split.
  - intros [Hi Hj]. apply in_column in Hj; [|lia..].
    repeat split; try lia. intros E. inversion E; subst. lia.
  - intros (Hi & Hj & Hne). split; [lia|].
    apply in_column; [lia..|]. split; [lia|].
    intros -> ->. contradiction.
Qed.

Lemma NoDup_serpentine (nx ny : Z) : NoDup (serpentine nx ny).
Proof. apply NoDup_columns, NoDup_zup. Qed.

Lemma flat_map_columns {A : Type} (f : Z * Z -> list A) (ny : Z)
    (cols : list Z) :
  flat_map f (flat_map (fun i => map (pair i) (column ny i)) cols)
  = flat_map (fun i => flat_map (fun j => f (i, j)) (column ny i)) cols.
Proof.
  induction cols as [|i cols IH]; cbn [flat_map]; [reflexivity|].
  rewrite flat_map_app, IH. f_equal.
  induction (column ny i) as [|j l IHl]; cbn [map flat_map];
    [reflexivity | rewrite IHl; reflexivity].
Qed.

(** *** The loops of the Custom traversal *)

Section Traversal.
Context {D : Type} `{DoubleOps D}.
Variable st : autoleveller D.

Let ny := numYPoints st.

Lemma customProbe_defined (i j : Z) :
  0 <= i -> 0 <= j < ny -> (i + 1) * ny + 500 <= INT_MAX ->
  customProbe st i j = Some (probeAndStore st (i, j)).
Proof.
  intros Hi Hj Hfit. unfold customProbe, getVarName, varIndex.
  fold ny. unfold INT_MAX in Hfit.
  rewrite (@int_fits (i * ny)) by (unfold INT_MIN, INT_MAX; nia).
  cbn [bind]. rewrite int_fits by (unfold INT_MIN, INT_MAX; nia).
  cbn [bind]. rewrite int_fits by (unfold INT_MIN, INT_MAX; nia).
  reflexivity.
Qed.

(** An upward run from row [j] to the last row leaves [j = ny]. *)
Lemma custom_while_up (k : nat) :
  forall (fuel : nat) (i j : Z) (out : text D),
    0 <= i -> (i + 1) * ny + 500 <= INT_MAX -> 1 <= ny ->
    0 <= j -> j + Z.of_nat k = ny -> (k < fuel)%nat ->
    custom_while fuel st i j 1 out
    = Some (out ++ flat_map (fun j' => probeAndStore st (i, j')) (zup j k),
            ny).
Proof.
  induction k as [|k IH]; intros fuel i j out Hi Hfit Hny Hj Hk Hfuel;
    (destruct fuel as [|fuel]; [lia|]); cbn [custom_while];
    fold ny; unfold INT_MAX in Hfit;
    rewrite (@int_fits (ny - 1)) by (unfold INT_MIN, INT_MAX; nia);
    cbn [bind].
  - replace (j <=? ny - 1) with false by (symmetry; apply Z.leb_gt; lia).
    rewrite andb_false_r. cbn [zup flat_map]. rewrite app_nil_r.
    f_equal. f_equal. lia.
  - replace (0 <=? j) with true by (symmetry; apply Z.leb_le; lia).
    replace (j <=? ny - 1) with true by (symmetry; apply Z.leb_le; lia).
    cbn [andb]. rewrite customProbe_defined by (unfold INT_MAX; lia).
    cbn [bind]. rewrite int_fits by (unfold INT_MIN, INT_MAX; nia).
    cbn [bind]. rewrite IH by (unfold INT_MAX; lia).
    cbn [zup flat_map]. rewrite <- app_assoc. reflexivity.
Qed.

(** A downward run from row [j] to row 0 leaves [j = -1]. *)
Lemma custom_while_down (k : nat) :
  forall (fuel : nat) (i j : Z) (out : text D),
    0 <= i -> (i + 1) * ny + 500 <= INT_MAX -> 1 <= ny ->
    j < ny -> j + 1 = Z.of_nat k -> (k < fuel)%nat ->
    custom_while fuel st i j (-1) out
    = Some (out ++ flat_map (fun j' => probeAndStore st (i, j'))
                     (zdown j k),
            -1).
Proof.
  induction k as [|k IH]; intros fuel i j out Hi Hfit Hny Hj Hk Hfuel;
    (destruct fuel as [|fuel]; [lia|]); cbn [custom_while];
    fold ny; unfold INT_MAX in Hfit;
    rewrite (@int_fits (ny - 1)) by (unfold INT_MIN, INT_MAX; nia);
    cbn [bind].
  - replace (0 <=? j) with false by (symmetry; apply Z.leb_gt; lia).
    cbn [andb zdown flat_map]. rewrite app_nil_r.
    f_equal. f_equal. lia.
  - replace (0 <=? j) with true by (symmetry; apply Z.leb_le; lia).
    replace (j <=? ny - 1) with true by (symmetry; apply Z.leb_le; lia).
    cbn [andb]. rewrite customProbe_defined by (unfold INT_MAX; lia).
    cbn [bind]. rewrite int_fits by (unfold INT_MIN, INT_MAX; nia).
    cbn [bind]. replace (j + -1) with (j - 1) by lia.
    rewrite IH by (unfold INT_MAX; lia).
    cbn [zdown flat_map]. rewrite <- app_assoc. reflexivity.
Qed.

End Traversal.

Section TraversalColumns.
Context {D : Type} `{DoubleOps D}.
Variable st : autoleveller D.

Let ny := numYPoints st.

(** One run of the [while] loop writes the probes of one column. *)
Lemma custom_while_column (fuel : nat) (i : Z) (out : text D) :
  0 <= i -> (i + 1) * ny + 500 <= INT_MAX -> 1 <= ny ->
  (Z.to_nat ny < fuel)%nat ->
  custom_while fuel st i (column_start ny i) (column_step i) out
  = Some (out ++ flat_map (fun j => probeAndStore st (i, j)) (column ny i),
          if Z.odd i then -1 else ny).
Proof.
  intros Hi Hfit Hny Hfuel. unfold column_start, column_step, column.
  destruct (i =? 0) eqn:E0.
  - apply Z.eqb_eq in E0. subst i. cbn [Z.odd]. unfold ny.
    apply custom_while_up; fold ny; lia.
  - destruct (Z.odd i); unfold ny.
    + apply custom_while_down; fold ny; lia.
    + apply custom_while_up; fold ny; lia.
Qed.

Lemma column_enter_next (i : Z) :
  0 <= i ->
  (if Z.odd i then -1 else ny) + - column_step i
  = column_start ny (i + 1)
  /\ - column_step i = column_step (i + 1).
Proof.
  intros Hi. unfold column_start, column_step.
  replace (i + 1 =? 0) with false by (symmetry; apply Z.eqb_neq; lia).
  replace (i + 1) with (Z.succ i) by lia. rewrite Z.odd_succ.
  rewrite <- Z.negb_odd. destruct (Z.odd i); cbn [negb]; lia.
Qed.

(** The [for] loop writes the columns [i, i+1, ...] one after the
    other. *)
Lemma custom_for_columns (fuel : nat) (n : nat) :
  forall (i : Z) (out : text D),
    0 <= i -> (i + Z.of_nat n) * ny + 500 <= INT_MAX -> 1 <= ny ->
    (Z.to_nat ny < fuel)%nat ->
    custom_for fuel n st i (column_start ny i) (column_step i) out
    = Some (out ++ flat_map
                     (fun i' => flat_map (fun j => probeAndStore st (i', j))
                                  (column ny i'))
                     (zup i n)).
Proof.
  induction n as [|n IH]; intros i out Hi Hfit Hny Hfuel;
    cbn [custom_for zup flat_map].
  - rewrite app_nil_r. reflexivity.
  - unfold INT_MAX in Hfit.
    rewrite custom_while_column by (fold ny; unfold INT_MAX; nia).
    cbn [bind]. fold ny.
    destruct (column_enter_next Hi) as [Hstart Hstep].
    rewrite Hstart, Hstep.
    rewrite int_fits
      by (unfold column_start, INT_MIN, INT_MAX;
          destruct (i + 1 =? 0); [|destruct (Z.odd (i + 1))]; nia).
    cbn [bind]. rewrite int_fits by (unfold INT_MIN, INT_MAX; nia).
    cbn [bind]. rewrite IH by (unfold INT_MAX; nia).
    rewrite <- app_assoc. reflexivity.
Qed.

(** Whatever the loops do, they only add to the text written so far. *)
Lemma custom_while_extends (fuel : nat) :
  forall (i j incr : Z) (out out' : text D) (j' : Z),
    custom_while fuel st i j incr out = Some (out', j') ->
    exists more, out' = out ++ more.
Proof.
  induction fuel as [|fuel IH]; intros i j incr out out' j' E;
    cbn [custom_while] in E; [discriminate|].
  bind_inv E. destruct (_ && _).
  - bind_inv E. bind_inv E. apply IH in E. destruct E as (more & ->).
    exists (v0 ++ more). rewrite app_assoc. reflexivity.
  - inversion E; subst. exists []. rewrite app_nil_r. reflexivity.
Qed.

Lemma custom_for_extends (fuel : nat) (n : nat) :
  forall (i j incr : Z) (out out' : text D),
    custom_for fuel n st i j incr out = Some out' ->
    exists more, out' = out ++ more.
Proof.
  induction n as [|n IH]; intros i j incr out out' E;
    cbn [custom_for] in E.
  - inversion E; subst. exists []. rewrite app_nil_r. reflexivity.
  - bind_inv E. destruct v as [o1 j1].
    apply custom_while_extends in E0. destruct E0 as (m1 & ->).
    bind_inv E. bind_inv E. apply IH in E. destruct E as (m2 & ->).
    exists (m1 ++ m2). rewrite app_assoc. reflexivity.
Qed.

End TraversalColumns.

(** *** Runs of tokens in a text *)

Lemma Emitted_here {A : Type} (l post : list A) : Emitted l (l ++ post).
Proof. exists [], post. reflexivity. Qed.

Lemma Emitted_app_r {A : Type} (l pre t : list A) :
  Emitted l t -> Emitted l (pre ++ t).
Proof.
  intros (p & q & ->). exists (pre ++ p), q. rewrite app_assoc. reflexivity.
Qed.

Lemma Emitted_app_l {A : Type} (l t post : list A) :
  Emitted l t -> Emitted l (t ++ post).
Proof.
  intros (p & q & ->). exists p, (q ++ post).
  rewrite <- !app_assoc. reflexivity.
Qed.

Lemma Emitted_cons {A : Type} (l t : list A) (x : A) :
  Emitted l t -> Emitted l (x :: t).
Proof. apply (Emitted_app_r [x]). Qed.

(** Finds a run in a text built with [++] and [::]. *)
Ltac find_emitted :=
  cbn [app];
  first
    [ solve [eexists [], _; cbn [app]; rewrite <- ?app_assoc; cbn [app];
             reflexivity]
    | apply Emitted_cons; find_emitted
    | apply Emitted_app_r; find_emitted ].

Section HeaderFacts.
Context {D : Type} `{DoubleOps D}.

(** With a probe feed rate, the header holds the probing introduction
    for the total [numXPoints * numYPoints]. *)
Lemma header_has_intro (fuel : nat) (st : autoleveller D)
    (ocodes ocodes' : uniqueCodes) (out : text D) :
  feedrate (conf st) <> [] ->
  header fuel st ocodes = Some (out, ocodes') ->
  exists pre post,
    out = pre ++ probingIntro st (numXPoints st * numYPoints st) ++ post.
Proof.
  intros Hfeed E. unfold header in E.
  destruct (if Software_eqb (software (conf st)) LINUXCNC
            then footerNoIf st ocodes else ([], ocodes)) as [subs oc1].
  bind_inv E. destruct v as [probing oc2]. inversion E; subst; clear E.
  destruct (feedrate (conf st)) as [|t ts] eqn:Ef; [congruence|].
  cbn [is_empty] in E0. bind_inv E0. apply int_Some in E. destruct E as [-> _].
  destruct (negb _).
  - bind_inv E0. destruct (getUniqueCode oc1) as [code oc3].
    inversion E0; subst; clear E0.
    exists subs. eexists. rewrite <- !app_assoc. reflexivity.
  - bind_inv E0. inversion E0; subst; clear E0.
    apply custom_for_extends in E. destruct E as (more & ->).
    exists subs. eexists. rewrite <- !app_assoc. reflexivity.
Qed.

Lemma Emitted_in_header (fuel : nat) (st : autoleveller D)
    (ocodes ocodes' : uniqueCodes) (out l : text D) :
  feedrate (conf st) <> [] ->
  header fuel st ocodes = Some (out, ocodes') ->
  Emitted l (probingIntro st (numXPoints st * numYPoints st)) ->
  Emitted l out.
Proof.
  intros Hfeed E Hl.
  destruct (header_has_intro _ _ _ Hfeed E) as (pre & post & ->).
  apply Emitted_app_r, Emitted_app_l, Hl.
Qed.

(** The header of the Custom dialect. *)
Lemma header_custom (fuel : nat) (st : autoleveller D)
    (ocodes : uniqueCodes) :
  software (conf st) = CUSTOM ->
  feedrate (conf st) <> [] ->
  0 <= numXPoints st -> 1 <= numYPoints st ->
  numXPoints st * numYPoints st + 500 <= INT_MAX ->
  (Z.to_nat (numYPoints st) < fuel)%nat ->
  header fuel st ocodes
  = Some (probingIntro st (numXPoints st * numYPoints st)
          ++ flat_map (probeAndStore st)
               (serpentine (numXPoints st) (numYPoints st))
          ++ (if is_empty (feedrate2nd (conf st)) then []
              else secondPass st)
          ++ headerEnd st,
          ocodes).
Proof.
  intros Hsw Hfeed Hnx Hny Hfit Hfuel. unfold header. rewrite Hsw.
  cbn [Software_eqb negb].
  destruct (feedrate (conf st)) as [|t ts] eqn:Ef; [congruence|].
  cbn [is_empty]. unfold INT_MAX in Hfit.
  rewrite int_fits by (unfold INT_MIN, INT_MAX; nia). cbn [bind].
  assert (Hcols := @custom_for_columns _ _ st fuel
                     (Z.to_nat (numXPoints st)) 0
                     (probingIntro st (numXPoints st * numYPoints st))).
  change (column_start (numYPoints st) 0) with 1 in Hcols.
  change (column_step 0) with 1 in Hcols.
  rewrite Hcols by (unfold INT_MAX; lia).
  cbn [bind]. unfold serpentine. rewrite flat_map_columns.
  cbn [app]. rewrite <- app_assoc. reflexivity.
Qed.

End HeaderFacts.

Section HeaderEnd.
Context {D : Type} `{DoubleOps D}.

Lemma header_has_end (fuel : nat) (st : autoleveller D)
    (ocodes ocodes' : uniqueCodes) (out : text D) :
  header fuel st ocodes = Some (out, ocodes') ->
  exists pre, out = pre ++ headerEnd st.
Proof.
  intros E. unfold header in E.
  destruct (if Software_eqb (software (conf st)) LINUXCNC
            then footerNoIf st ocodes else ([], ocodes)) as [subs oc1].
  bind_inv E. destruct v as [probing oc2]. inversion E; subst; clear E.
  eexists. rewrite !app_assoc. reflexivity.
Qed.

End HeaderEnd.

(* ================================================================== *)
(** ** C1: the capacity gate *)

Section Gate.
Context {D : Type} `{DoubleOps D}.

(** What a defined call of [prepareWorkarea] leaves in the object. *)
Lemma prepareWorkarea_result (st st' : autoleveller D)
    (toolpaths : list (icoords D)) (ok : bool) :
  prepareWorkarea st toolpaths = Some (ok, st') ->
  exists workarea nX nY,
    computeWorkarea st toolpaths = Some workarea
    /\ double_to_int (dround (ddiv (workareaLenX (conf st) workarea)
                                   (XProbeDistRequired (conf st)))) = Some nX
    /\ double_to_int (dround (ddiv (workareaLenY (conf st) workarea)
                                   (YProbeDistRequired (conf st)))) = Some nY
    /\ conf st' = conf st
    /\ numXPoints st' = plannedPoints nX
    /\ numYPoints st' = plannedPoints nY
    /\ XProbeDist st' = ddiv (workareaLenX (conf st) workarea)
                             (dofZ (numXPoints st' - 1))
    /\ YProbeDist st' = ddiv (workareaLenY (conf st) workarea)
                             (dofZ (numYPoints st' - 1))
    /\ INT_MIN <= numXPoints st' * numYPoints st' <= INT_MAX
    /\ ok = negb (too_many_points (software (conf st))
                    (numXPoints st' * numYPoints st')).
Proof.
  unfold prepareWorkarea. intros E.
  bind_inv E. rename v into workarea.
  bind_inv E. rename v into nX.
  bind_inv E. rename v into numX.
  bind_inv E. rename v into nY.
  bind_inv E. rename v into numY.
  bind_inv E. bind_inv E. bind_inv E.
  apply int_Some in E5, E6, E7.
  destruct E5 as [-> _], E6 as [-> _], E7 as [-> Hrange].
  assert (numX = plannedPoints nX) as ->.
  { unfold plannedPoints. destruct (1 <? nX); [|congruence].
    apply int_Some in E2. tauto. }
  assert (numY = plannedPoints nY) as ->.
  { unfold plannedPoints. destruct (1 <? nY); [|congruence].
    apply int_Some in E4. tauto. }
  inversion E; subst; simpl.
  exists workarea, nX, nY. repeat split; auto; lia.
Qed.


End Gate.

(** C1. A defined call of [prepareWorkarea] returns failure if and only
    if the number of grid points [numXPoints * numYPoints] exceeds the
    ceiling of the dialect, 4501 for LinuxCNC and 500 for every other
    dialect; a grid of exactly the ceiling is accepted.  The counts
    left in the object are the planned ones, whatever the verdict:
    nothing is clamped. *)
Theorem prepareWorkarea_gate :
  forall (D : Type) (ops : DoubleOps D) (st st' : autoleveller D)
         (toolpaths : list (icoords D)) (ok : bool),
    prepareWorkarea st toolpaths = Some (ok, st') ->
    (software (conf st) = LINUXCNC ->
     (ok = false <-> 4501 < numXPoints st' * numYPoints st'))
    /\ (software (conf st) <> LINUXCNC ->
        (ok = false <-> 500 < numXPoints st' * numYPoints st'))
    /\ (numXPoints st' * numYPoints st' = ceiling (software (conf st)) ->
        ok = true)
    /\ exists workarea nX nY,
         computeWorkarea st toolpaths = Some workarea
         /\ double_to_int (dround (ddiv (workareaLenX (conf st) workarea)
                                        (XProbeDistRequired (conf st))))
            = Some nX
         /\ double_to_int (dround (ddiv (workareaLenY (conf st) workarea)
                                        (YProbeDistRequired (conf st))))
            = Some nY
         /\ numXPoints st' = (if 1 <? nX then nX + 1 else 2)
         /\ numYPoints st' = (if 1 <? nY then nY + 1 else 2).
Proof.
  intros D ops st st' toolpaths ok E.
  destruct (prepareWorkarea_result _ _ E)
    as (w & nX & nY & Hw & HnX & HnY & Hc & HX & HY & _ & _ & _ & Hok).
  assert (Hiff : ok = false <->
            ceiling (software (conf st)) < numXPoints st' * numYPoints st').
  { rewrite <- too_many_points_ceiling, Hok.
    destruct (too_many_points _ _); simpl; split; congruence. }
  split; [|split; [|split]].
  - intros Hs. rewrite Hs in Hiff. exact Hiff.
  - intros Hs. destruct (software (conf st)); [congruence | | |];
      exact Hiff.
  - intros Heq. destruct ok; [reflexivity|].
    destruct Hiff as [Hlt _]. specialize (Hlt eq_refl). lia.
  - exists w, nX, nY. auto.
Qed.

Lemma prepareWorkarea_gate_witness :
  prepareWorkarea (Scenario.fresh (Scenario.opts_1 "linuxcnc"))
    (Scenario.diagonal 6 642)
  = Some (true, Scenario.planned (Scenario.opts_1 "linuxcnc")
                  (Scenario.diagonal 6 642))
  /\ (true = false <-> 4501 < 7 * 643).
Proof.
  assert (E : prepareWorkarea (Scenario.fresh (Scenario.opts_1 "linuxcnc"))
                (Scenario.diagonal 6 642)
              = Some (true, Scenario.planned (Scenario.opts_1 "linuxcnc")
                              (Scenario.diagonal 6 642)))
    by (vm_compute; reflexivity).
  split; [exact E|].
  exact (proj1 (prepareWorkarea_gate _ _ _ E) eq_refl).
Defined.

(** The boundary of the gate on both ceilings: 7 x 643 = 4501 points pass
    and 2 x 2251 = 4502 fail on LinuxCNC; 20 x 25 = 500 points pass and
    3 x 167 = 501 fail on Mach3. *)
Example gate_boundary :
  let run sw x y :=
    match prepareWorkarea (Scenario.fresh (Scenario.opts_1 sw))
            (Scenario.diagonal x y) with
    | Some (ok, st) => Some (ok, numXPoints st, numYPoints st)
    | None => None
    end in
  run "linuxcnc" 6 642 = Some (true, 7, 643)
  /\ run "linuxcnc" 1 2250 = Some (false, 2, 2251)
  /\ run "mach3" 19 24 = Some (true, 20, 25)
  /\ run "mach3" 2 166 = Some (false, 3, 167).
Proof. vm_compute. repeat split. Qed.

(* ================================================================== *)
(** ** C2: the planned grid *)



(** A requested spacing larger than the length: a length of 5 with
    spacing 10 is given 2 points, 5 apart. *)
Example planner_forces_two_points :
  let st := Scenario.planned (Scenario.opts_10 "linuxcnc")
              (Scenario.diagonal 5 80) in
  numXPoints st = 2 /\ XProbeDist st = Binary64.of_Z 5.
Proof. vm_compute. split; reflexivity. Qed.

(** On binary64 doubles the product is the length up to rounding only:
    a length of 1 with a requested spacing of 1/49 is cut in 49 steps, and
    the spacing times 49 is the double just below 1. *)
Example spacing_product_rounds :
  let st := Scenario.planned
              (Scenario.options "linuxcnc"
                 (ddiv (Binary64.of_Z 1) (Binary64.of_Z 49)) (Binary64.of_Z 1)
                 (Binary64.of_Z 0) (Binary64.of_Z 2))
              [[(Binary64.of_Z 0, Binary64.of_Z 0);
                (Binary64.of_Z 1, Binary64.of_Z 1)]] in
  numXPoints st = 50
  /\ dmul (XProbeDist st) (dofZ (numXPoints st - 1))
     = S754_finite false 9007199254740991 (-53)
  /\ Binary64.of_Z 1 = S754_finite false 4503599627370496 (-52).
Proof. vm_compute. repeat split. Qed.

(* ================================================================== *)
(** ** C4: the cursor *)

(** C4, as the code has it.  After a defined call of [addChainPoint] the
    cursor [lastPoint] is the point passed; [g01Corrected] returns its
    text and leaves the object, cursor included, as it was. *)
Theorem cursor_update :
  forall (D : Type) (ops : DoubleOps D) (st st' : autoleveller D)
         (point : icoordpair D) (out : text D),
    (addChainPoint st point = Some (out, st') -> lastPoint st' = point)
    /\ (g01Corrected st point = Some (out, st') -> st' = st).
Proof.
  intros D ops st st' point out. split.
  - unfold addChainPoint. intros E.
    bind_inv E. bind_inv E. bind_inv E.
    inversion E. reflexivity.
  - unfold g01Corrected. intros E.
    destruct (has_subroutines _).
    + inversion E. reflexivity.
    + bind_inv E. inversion E. reflexivity.
Qed.

Lemma cursor_update_witness :
  (exists out st',
      addChainPoint Scenario.custom_grid (Binary64.of_Z 0, Binary64.of_Z 25)
      = Some (out, st')
      /\ lastPoint st' = (Binary64.of_Z 0, Binary64.of_Z 25)).
Proof.
  destruct (addChainPoint Scenario.custom_grid
              (Binary64.of_Z 0, Binary64.of_Z 25)) as [[out st']|] eqn:E.
  - exists out, st'. split; [reflexivity|].
    exact (proj1 (cursor_update _ _ _ _ _) E).
  - vm_compute in E. discriminate E.
Defined.

(** The claim as stated fails for [g01Corrected]: with the cursor at the
    origin, correcting the point (1, 1) leaves the cursor at the
    origin. *)
Lemma g01Corrected_keeps_cursor :
  exists out st',
    g01Corrected Scenario.custom_grid (Binary64.of_Z 1, Binary64.of_Z 1)
    = Some (out, st')
    /\ lastPoint st' <> (Binary64.of_Z 1, Binary64.of_Z 1).
Proof.
  destruct (g01Corrected Scenario.custom_grid
              (Binary64.of_Z 1, Binary64.of_Z 1)) as [[out st']|] eqn:E.
  - exists out, st'. split; [reflexivity|].
    vm_compute in E. inversion E. vm_compute. discriminate.
  - vm_compute in E. discriminate E.
Qed.

(* ================================================================== *)
(** ** C6: the table index *)

(** C6. On a grid of at least 2 x 2 points the number
    [i * numYPoints + j + 500] that [getVarName] prints is injective
    over the grid: two grid points with the same number, or the same
    name, are the same point.  The number is defined for every grid point
    as soon as the last index [numXPoints * numYPoints + 500] fits an
    [int]. *)
Theorem getVarName_injective :
  forall (D : Type) (ops : DoubleOps D) (st : autoleveller D)
         (i j i' j' : Z),
    2 <= numXPoints st -> 2 <= numYPoints st ->
    0 <= i < numXPoints st -> 0 <= j < numYPoints st ->
    0 <= i' < numXPoints st -> 0 <= j' < numYPoints st ->
    (forall a, varIndex st i j = Some a -> varIndex st i' j' = Some a ->
               i = i' /\ j = j')
    /\ (forall name, getVarName st i j = Some name ->
                     getVarName st i' j' = Some name -> i = i' /\ j = j')
    /\ (numXPoints st * numYPoints st + 500 <= INT_MAX ->
        varIndex st i j = Some (i * numYPoints st + j + 500)
        /\ getVarName st i j
           = Some [Lit "#"; Int (i * numYPoints st + j + 500)]).
Proof.
  intros D ops st i j i' j' HX HY Hi Hj Hi' Hj'.
  assert (Hinj : forall a, varIndex st i j = Some a ->
                           varIndex st i' j' = Some a -> i = i' /\ j = j').
  { unfold varIndex. intros a E E'.
    bind_inv E. bind_inv E. bind_inv E'. bind_inv E'.
    apply int_Some in E, E0, E1, E', E2, E3.
    destruct E as [-> _], E0 as [-> _], E1 as [-> _],
             E' as [E' _], E2 as [-> _], E3 as [-> _].
    assert (i = i') by nia. subst i'. split; [reflexivity | lia]. }
  split; [exact Hinj|]. split.
  - unfold getVarName. intros name E E'.
    bind_inv E. bind_inv E'. inversion E; inversion E'; subst.
    apply (Hinj v); congruence.
  - intros Hfit. unfold getVarName, varIndex, INT_MAX in *.
    assert (0 <= i * numYPoints st <= (numXPoints st - 1) * numYPoints st)
      by nia.
    rewrite (@int_fits (i * numYPoints st))
      by (unfold INT_MIN, INT_MAX; nia).
    simpl. rewrite int_fits by (unfold INT_MIN, INT_MAX; nia).
    simpl. rewrite int_fits by (unfold INT_MIN, INT_MAX; nia).
    simpl. split; reflexivity.
Qed.

Lemma getVarName_injective_witness :
  (varIndex Scenario.custom_grid 1 2 = Some 505
   -> varIndex Scenario.custom_grid 1 2 = Some 505 -> 1 = 1 /\ 2 = 2)
  /\ varIndex Scenario.custom_grid 1 2 = Some (1 * 3 + 2 + 500).
Proof.
  assert (HX : 2 <= numXPoints Scenario.custom_grid)
    by (vm_compute; discriminate).
  assert (HY : 2 <= numYPoints Scenario.custom_grid)
    by (vm_compute; discriminate).
  assert (Hi : 0 <= 1 < numXPoints Scenario.custom_grid)
    by (vm_compute; split; [discriminate | reflexivity]).
  assert (Hj : 0 <= 2 < numYPoints Scenario.custom_grid)
    by (vm_compute; split; [discriminate | reflexivity]).
  assert (Hfit : numXPoints Scenario.custom_grid
                 * numYPoints Scenario.custom_grid + 500 <= INT_MAX)
    by (vm_compute; discriminate).
  destruct (getVarName_injective _ Scenario.custom_grid HX HY Hi Hj Hi Hj)
    as (Hinj & _ & Hdef).
  split; [exact (Hinj 505) | exact (proj1 (Hdef Hfit))].
Defined.

(* ================================================================== *)
(** ** C7: segment splitting *)



(** On binary64 doubles: the cursor at the origin, the target (0, 25)
    and three steps give a last point that is the target. *)
Example splitSegment_run :
  exists p1 p2,
    splitSegment Scenario.custom_grid (Binary64.of_Z 0, Binary64.of_Z 25) 3
    = Some [p1; p2; (Binary64.of_Z 0, Binary64.of_Z 25)].
Proof. do 2 eexists. vm_compute. reflexivity. Qed.

(* ================================================================== *)
(** ** C3: the number of sub-segments *)




(* ================================================================== *)
(** ** C5: interpolation at a grid vertex *)

(** C5. When both fractional offsets computed by [interpolatePoint] are
    0, the three assignments it writes leave in [#3] the table value of
    the vertex [(xminindex, yminindex)]: in exact arithmetic for any
    table of finite values, and on binary64 doubles, up to the sign of a
    zero, for any table of finite values with finite differences. *)
Theorem interpolation_at_vertex :
  (forall (st : autoleveller Exact.ereal) (point : icoordpair Exact.ereal)
          (xmin ymin vertex : Z) (prog : list (gassign Exact.ereal))
          (s : store),
      xminindex st point = Some xmin ->
      yminindex st point = Some ymin ->
      x_minus_x0_rel st point xmin = Exact.Fin 0 ->
      y_minus_y0_rel st point ymin = Exact.Fin 0 ->
      varIndex st xmin ymin = Some vertex ->
      interpolation st point = Some prog ->
      (forall k, exists r, s k = Exact.Fin r) ->
      interpolatePoint st point = Some (print_program prog)
      /\ run prog s 3 = s vertex)
  /\ (forall (st : autoleveller Binary64.double)
             (point : icoordpair Binary64.double)
             (xmin ymin vertex : Z) (prog : list (gassign Binary64.double))
             (s : store) (sx sy : bool),
        xminindex st point = Some xmin ->
        yminindex st point = Some ymin ->
        x_minus_x0_rel st point xmin = S754_zero sx ->
        y_minus_y0_rel st point ymin = S754_zero sy ->
        varIndex st xmin ymin = Some vertex ->
        interpolation st point = Some prog ->
        Table64.tame s ->
        interpolatePoint st point = Some (print_program prog)
        /\ Table64.same_value (run prog s 3) (s vertex)
        /\ SFeqb (run prog s 3) (s vertex) = true).
Proof.
  split.
  - intros st point xmin ymin vertex prog s Hx Hy Hfx Hfy Hv Hprog Hs.
    split; [apply interpolatePoint_prints; assumption|].
    unfold interpolation in Hprog. rewrite Hx, Hy in Hprog.
    cbn [bind] in Hprog.
    bind_inv Hprog. bind_inv Hprog. bind_inv Hprog. bind_inv Hprog.
    rewrite Hv in Hprog. cbn [bind] in Hprog. bind_inv Hprog.
    apply Some_eq_inv in Hprog. subst prog.
    rewrite Hfx, Hfy.
    unfold run, exec. cbn [fold_left target rhs].
    set (s1 := update s 1 (eval s (blend vertex v1 (Exact.Fin 0)))).
    set (s2 := update s1 2 (eval s1 (blend v3 v2 (Exact.Fin 0)))).
    assert (H1 : s1 = update s 1 (s vertex))
      by (unfold s1; rewrite BlendExact.eval_blend_zero by exact Hs;
          reflexivity).
    assert (Hs1 : finite_store s1)
      by (rewrite H1; apply BlendExact.finite_store_update; exact Hs).
    assert (H2 : s2 = update s1 2 (s1 v3))
      by (unfold s2; rewrite BlendExact.eval_blend_zero by exact Hs1;
          reflexivity).
    assert (Hs2 : finite_store s2)
      by (rewrite H2; apply BlendExact.finite_store_update; exact Hs1).
    rewrite BlendExact.eval_blend_zero by exact Hs2.
    unfold update at 1. simpl. rewrite H2. unfold update at 1. simpl.
    rewrite H1. unfold update. simpl. reflexivity.
  - intros st point xmin ymin vertex prog s sx sy Hx Hy Hfx Hfy Hv Hprog Hs.
    split; [apply interpolatePoint_prints; assumption|].
    unfold interpolation in Hprog. rewrite Hx, Hy in Hprog.
    cbn [bind] in Hprog.
    bind_inv Hprog. bind_inv Hprog. bind_inv Hprog. bind_inv Hprog.
    rewrite Hv in Hprog. cbn [bind] in Hprog. bind_inv Hprog.
    apply Some_eq_inv in Hprog. subst prog.
    rewrite Hfx, Hfy.
    assert (Hsame := @Table64Facts.run_blends s vertex v1 v3 v2 sx sy Hs).
    split; [exact Hsame|].
    apply Table64Facts.same_value_eqb; [|exact Hsame].
    etransitivity; [exact (Table64Facts.same_value_finite Hsame)|].
    apply (Hs vertex vertex).
Qed.

Lemma interpolation_at_vertex_witness :
  (exists prog,
      interpolation ExactScenario.grid (Exact.Fin 10, Exact.Fin 20)
      = Some prog
      /\ interpolatePoint ExactScenario.grid (Exact.Fin 10, Exact.Fin 20)
         = Some (print_program prog)
      /\ run prog ExactScenario.heights 3 = ExactScenario.heights 505)
  /\ exists prog,
       interpolation Scenario.custom_grid (Binary64.of_Z 10, Binary64.of_Z 20)
       = Some prog
       /\ SFeqb (run prog Scenario.heights 3) (Scenario.heights 505) = true.
Proof.
  split; [|
    assert (Ht : Table64.tame Scenario.heights)
      by (intros j k; unfold Scenario.heights;
          destruct (j =? 505), (k =? 505); vm_compute; split; reflexivity);
    assert (Hp : exists prog,
               interpolation Scenario.custom_grid
                 (Binary64.of_Z 10, Binary64.of_Z 20) = Some prog)
      by (vm_compute; eexists; reflexivity);
    destruct Hp as (prog & Hp); exists prog; split; [exact Hp|];
    exact (proj2 (proj2 (proj2 interpolation_at_vertex
                           Scenario.custom_grid
                           (Binary64.of_Z 10, Binary64.of_Z 20)
                           1 2 505 prog Scenario.heights false false
                           eq_refl eq_refl eq_refl eq_refl eq_refl Hp Ht)))].
  assert (H10 : (10 <> 0)%R) by lra.
  assert (Hx : xminindex ExactScenario.grid (Exact.Fin 10, Exact.Fin 20)
               = Some 1).
  { unfold xminindex. cbn [fst startPointX XProbeDist ExactScenario.grid].
    rewrite (@IndexExact.cell_index _ _ _ 1 H10); [reflexivity | lra]. }
  assert (Hy : yminindex ExactScenario.grid (Exact.Fin 10, Exact.Fin 20)
               = Some 2).
  { unfold yminindex. cbn [snd startPointY YProbeDist ExactScenario.grid].
    rewrite (@IndexExact.cell_index _ _ _ 2 H10); [reflexivity | lra]. }
  assert (Hfx : x_minus_x0_rel ExactScenario.grid
                  (Exact.Fin 10, Exact.Fin 20) 1 = Exact.Fin 0).
  { unfold x_minus_x0_rel.
    cbn [fst startPointX XProbeDist ExactScenario.grid].
    rewrite (@IndexExact.cell_offset _ _ _ 1 H10). f_equal. lra. }
  assert (Hfy : y_minus_y0_rel ExactScenario.grid
                  (Exact.Fin 10, Exact.Fin 20) 2 = Exact.Fin 0).
  { unfold y_minus_y0_rel.
    cbn [snd startPointY YProbeDist ExactScenario.grid].
    rewrite (@IndexExact.cell_offset _ _ _ 2 H10). f_equal. lra. }
  assert (Hv : varIndex ExactScenario.grid 1 2 = Some 505) by reflexivity.
  assert (Hs : forall k, exists r, ExactScenario.heights k = Exact.Fin r)
    by (intros k; eexists; reflexivity).
  assert (Hp : exists prog,
             interpolation ExactScenario.grid (Exact.Fin 10, Exact.Fin 20)
             = Some prog).
  { unfold interpolation. rewrite Hx, Hy. eexists. reflexivity. }
  destruct Hp as (prog & Hp). exists prog. split; [exact Hp|].
  exact (proj1 interpolation_at_vertex _ _ _ _ _ _ ExactScenario.heights
           Hx Hy Hfx Hfy Hv Hp Hs).
Defined.

(** On binary64 doubles: the vertex (1, 2) of the 3 x 3 grid with
    spacing 10, on a table whose slot [k] holds the double [k]. *)
Example interpolation_run :
  option_map (fun prog => run prog (fun k => Binary64.of_Z k) 3)
    (interpolation Scenario.custom_grid (Binary64.of_Z 10, Binary64.of_Z 20))
  = Some (Binary64.of_Z 505).
Proof. vm_compute. reflexivity. Qed.

(* ================================================================== *)
(** ** C8: the workarea *)

(** C8. On binary64 doubles, for a collection that is not empty, of paths
    that are not empty and hold no NaN, [computeWorkarea] returns the
    rectangle whose near corner is the least x and the least y of all
    points, each less the offset increased by the tolerance, and whose
    far corner is the greatest x and the greatest y, each less the offset
    decreased by the tolerance.  For the empty collection the near corner
    is [+inf] and the far corner [-inf], shifted in the same way: with
    finite shifts they are [+inf] and [-inf] themselves. *)
Theorem computeWorkarea_bounding_box :
  (forall (st : autoleveller Binary64.double)
          (toolpaths : list (icoords Binary64.double)),
      toolpaths <> [] ->
      (forall path, In path toolpaths -> path <> []) ->
      (forall path p, In path toolpaths -> In p path ->
                      fst p <> S754_nan /\ snd p <> S754_nan) ->
      exists xmin ymin xmax ymax,
        is_least (map fst (List.concat toolpaths)) xmin
        /\ is_least (map snd (List.concat toolpaths)) ymin
        /\ is_greatest (map fst (List.concat toolpaths)) xmax
        /\ is_greatest (map snd (List.concat toolpaths)) ymax
        /\ computeWorkarea st toolpaths
           = Some
               ((dsub xmin (dadd (xoffset (conf st))
                                 (quantization_error (conf st))),
                 dsub ymin (dadd (yoffset (conf st))
                                 (quantization_error (conf st)))),
                (dsub xmax (dsub (xoffset (conf st))
                                 (quantization_error (conf st))),
                 dsub ymax (dsub (yoffset (conf st))
                                 (quantization_error (conf st))))))
  /\ (forall st : autoleveller Binary64.double,
        computeWorkarea st []
        = Some
            ((dsub (S754_infinity false)
                   (dadd (xoffset (conf st)) (quantization_error (conf st))),
              dsub (S754_infinity false)
                   (dadd (yoffset (conf st)) (quantization_error (conf st)))),
             (dsub (S754_infinity true)
                   (dsub (xoffset (conf st)) (quantization_error (conf st))),
              dsub (S754_infinity true)
                   (dsub (yoffset (conf st)) (quantization_error (conf st)))))
        /\ (Table64.is_finite
              (dadd (xoffset (conf st)) (quantization_error (conf st))) = true ->
            Table64.is_finite
              (dadd (yoffset (conf st)) (quantization_error (conf st))) = true ->
            Table64.is_finite
              (dsub (xoffset (conf st)) (quantization_error (conf st))) = true ->
            Table64.is_finite
              (dsub (yoffset (conf st)) (quantization_error (conf st))) = true ->
            computeWorkarea st []
            = Some ((S754_infinity false, S754_infinity false),
                    (S754_infinity true, S754_infinity true)))).
Proof.
  split.
  - intros st toolpaths Hne Hpaths Hnn.
    assert (Hcat : forall (proj : icoordpair spec_float -> spec_float),
               map proj (List.concat toolpaths) <> []).
    { intros proj. destruct toolpaths as [|[|p l] rest]; [congruence | |].
      - destruct (Hpaths [] (or_introl eq_refl) eq_refl).
      - simpl. discriminate. }
    assert (Hfst : forall x, In x (map fst (List.concat toolpaths)) ->
                             Order64.not_nan x).
    { intros x Hx. apply in_map_iff in Hx. destruct Hx as (p & <- & Hp).
      apply in_concat in Hp. destruct Hp as (path & Hpath & Hp).
      exact (proj1 (Hnn path p Hpath Hp)). }
    assert (Hsnd : forall x, In x (map snd (List.concat toolpaths)) ->
                             Order64.not_nan x).
    { intros x Hx. apply in_map_iff in Hx. destruct Hx as (p & <- & Hp).
      apply in_concat in Hp. destruct Hp as (path & Hpath & Hp).
      exact (proj2 (Hnn path p Hpath Hp)). }
    assert (Hpinf : Order64.not_nan (S754_infinity false)) by discriminate.
    assert (Hminf : Order64.not_nan (S754_infinity true)) by discriminate.
    exists (Order64.scan_coord Order64.lt fst toolpaths (S754_infinity false)),
           (Order64.scan_coord Order64.lt snd toolpaths (S754_infinity false)),
           (Order64.scan_coord Order64.gt fst toolpaths (S754_infinity true)),
           (Order64.scan_coord Order64.gt snd toolpaths (S754_infinity true)).
    split; [|split; [|split; [|split]]].
    + apply (Order64Facts.extreme_drop_sentinel Order64.lt
               (S754_infinity false) _ _ Order64Facts.lt_sentinel Hfst
               (Hcat fst)).
      apply Order64Facts.scan_coord_extreme;
        auto using Order64Facts.lt_weak_order.
    + apply (Order64Facts.extreme_drop_sentinel Order64.lt
               (S754_infinity false) _ _ Order64Facts.lt_sentinel Hsnd
               (Hcat snd)).
      apply Order64Facts.scan_coord_extreme;
        auto using Order64Facts.lt_weak_order.
    + apply (Order64Facts.extreme_drop_sentinel Order64.gt
               (S754_infinity true) _ _ Order64Facts.gt_sentinel Hfst
               (Hcat fst)).
      apply Order64Facts.scan_coord_extreme;
        auto using Order64Facts.gt_weak_order.
    + apply (Order64Facts.extreme_drop_sentinel Order64.gt
               (S754_infinity true) _ _ Order64Facts.gt_sentinel Hsnd
               (Hcat snd)).
      apply Order64Facts.scan_coord_extreme;
        auto using Order64Facts.gt_weak_order.
    + unfold computeWorkarea.
      rewrite Order64Facts.scan_paths_coords by exact Hpaths.
      reflexivity.
  - intros st. split; [reflexivity|].
    unfold computeWorkarea. cbn [scan_paths bind fst snd].
    cbn [dsub dopp dinfinity Binary64.ops SFopp negb].
    intros H1 H2 H3 H4.
    destruct (dadd (xoffset (conf st)) (quantization_error (conf st)));
      try discriminate H1;
      destruct (dadd (yoffset (conf st)) (quantization_error (conf st)));
      try discriminate H2;
      destruct (SFsub Binary64.prec Binary64.emax (xoffset (conf st))
                  (quantization_error (conf st)));
      try discriminate H3;
      destruct (SFsub Binary64.prec Binary64.emax (yoffset (conf st))
                  (quantization_error (conf st)));
      try discriminate H4; reflexivity.
Qed.

Lemma computeWorkarea_bounding_box_witness :
  Scenario.diagonal 100 80 <> []
  /\ exists xmin ymin xmax ymax,
       is_least (map fst (List.concat (Scenario.diagonal 100 80))) xmin
       /\ is_least (map snd (List.concat (Scenario.diagonal 100 80))) ymin
       /\ is_greatest (map fst (List.concat (Scenario.diagonal 100 80))) xmax
       /\ is_greatest (map snd (List.concat (Scenario.diagonal 100 80))) ymax
       /\ computeWorkarea (Scenario.fresh (Scenario.opts_10 "linuxcnc"))
            (Scenario.diagonal 100 80)
          = Some ((dsub xmin (dadd (Binary64.of_Z 0) (Binary64.of_Z 0)),
                   dsub ymin (dadd (Binary64.of_Z 0) (Binary64.of_Z 0))),
                  (dsub xmax (dsub (Binary64.of_Z 0) (Binary64.of_Z 0)),
                   dsub ymax (dsub (Binary64.of_Z 0) (Binary64.of_Z 0)))).
Proof.
  assert (Hne : Scenario.diagonal 100 80 <> []) by discriminate.
  assert (Hpaths : forall path, In path (Scenario.diagonal 100 80) ->
                                path <> []).
  { intros path [<- | []]. discriminate. }
  assert (Hnn : forall path p, In path (Scenario.diagonal 100 80) ->
                  In p path -> fst p <> S754_nan /\ snd p <> S754_nan).
  { intros path p [<- | []] [<- | [<- | []]];
      vm_compute; split; discriminate. }
  split; [exact Hne|].
  exact (proj1 computeWorkarea_bounding_box
           (Scenario.fresh (Scenario.opts_10 "linuxcnc"))
           (Scenario.diagonal 100 80) Hne Hpaths Hnn).
Defined.

(** The workarea of the path from (0, 0) to (100, 80) with no offset and
    no tolerance. *)
Example computeWorkarea_run :
  computeWorkarea (Scenario.fresh (Scenario.opts_10 "linuxcnc"))
    (Scenario.diagonal 100 80)
  = Some ((Binary64.of_Z 0, Binary64.of_Z 0),
          (Binary64.of_Z 100, Binary64.of_Z 80)).
Proof. vm_compute. reflexivity. Qed.

(* ================================================================== *)
(** ** C10: the Custom traversal *)

(** C10. For the Custom dialect with a probe feed rate, on a grid whose
    last table index fits an [int], the header is the probing
    introduction, which assigns [#500 = 0] for the reference point
    (0, 0), followed by one probe-and-store for each point of the
    serpentine and nothing else before the closing text.  The serpentine
    holds every grid point except (0, 0), each once; its first column
    runs upward from row 1. *)
Theorem custom_header_traversal :
  forall (D : Type) (ops : DoubleOps D) (st : autoleveller D)
         (ocodes : uniqueCodes) (fuel : nat),
    software (conf st) = CUSTOM ->
    feedrate (conf st) <> [] ->
    0 <= numXPoints st -> 1 <= numYPoints st ->
    numXPoints st * numYPoints st + 500 <= INT_MAX ->
    (Z.to_nat (numYPoints st) < fuel)%nat ->
    header fuel st ocodes
    = Some (probingIntro st (numXPoints st * numYPoints st)
            ++ flat_map (probeAndStore st)
                 (serpentine (numXPoints st) (numYPoints st))
            ++ (if is_empty (feedrate2nd (conf st)) then []
                else secondPass st)
            ++ headerEnd st,
            ocodes)
    /\ Emitted [Lit "#500 = 0 ( Probe point [0, 0] is our reference )"; endl]
         (probingIntro st (numXPoints st * numYPoints st))
    /\ NoDup (serpentine (numXPoints st) (numYPoints st))
    /\ (forall i j,
          In (i, j) (serpentine (numXPoints st) (numYPoints st))
          <-> 0 <= i < numXPoints st /\ 0 <= j < numYPoints st
              /\ (i, j) <> (0, 0))
    /\ (1 <= numXPoints st ->
        exists rest,
          serpentine (numXPoints st) (numYPoints st)
          = map (pair 0) (zup 1 (Z.to_nat (numYPoints st - 1))) ++ rest).
Proof.
  intros D ops st ocodes fuel Hsw Hfeed Hnx Hny Hfit Hfuel.
  split; [apply header_custom; assumption|].
  split; [unfold probingIntro; find_emitted|].
  split; [apply NoDup_serpentine|].
  split; [intros i j; apply in_serpentine; assumption|].
  intros Hnx1. unfold serpentine.
  destruct (Z.to_nat (numXPoints st)) as [|n] eqn:En; [lia|].
  cbn [zup flat_map]. eexists. reflexivity.
Qed.

Lemma custom_header_traversal_witness :
  exists out,
    header 4 Scenario.custom_grid 7 = Some (out, 7)
    /\ serpentine 3 3
       = [(0, 1); (0, 2); (1, 2); (1, 1); (1, 0); (2, 0); (2, 1); (2, 2)].
Proof.
  assert (Hsw : software (conf Scenario.custom_grid) = CUSTOM) by reflexivity.
  assert (Hfeed : feedrate (conf Scenario.custom_grid) <> [])
    by (vm_compute; discriminate).
  assert (Hnx : 0 <= numXPoints Scenario.custom_grid)
    by (vm_compute; discriminate).
  assert (Hny : 1 <= numYPoints Scenario.custom_grid)
    by (vm_compute; discriminate).
  assert (Hfit : numXPoints Scenario.custom_grid
                 * numYPoints Scenario.custom_grid + 500 <= INT_MAX)
    by (vm_compute; discriminate).
  assert (Hfuel : (Z.to_nat (numYPoints Scenario.custom_grid) < 4)%nat)
    by (vm_compute; repeat constructor).
  eexists. split.
  - exact (proj1 (custom_header_traversal _ _ 7 Hsw Hfeed Hnx Hny Hfit Hfuel)).
  - reflexivity.
Defined.

(* ================================================================== *)
(** ** C9: the depths written into the moves *)

(** The claim as stated fails for the probe height and the probe-fail
    depth: the constructor reads no option for either.  Two
    configurations that differ in both depths they set, the working depth
    and the safe height, give the same depth to the probe command, and in
    each the probe height is the safe height. *)
Lemma probe_depths_not_configured :
  o_zwork Scenario.opts_a <> o_zwork Scenario.opts_b
  /\ o_zsafe Scenario.opts_a <> o_zsafe Scenario.opts_b
  /\ zfail (Scenario.settings_of Scenario.opts_a)
     = zfail (Scenario.settings_of Scenario.opts_b)
  /\ zprobe (Scenario.settings_of Scenario.opts_a)
     = [Fix 3 (o_zsafe Scenario.opts_a)]
  /\ zprobe (Scenario.settings_of Scenario.opts_b)
     = [Fix 3 (o_zsafe Scenario.opts_b)].
Proof. vm_compute. repeat split; discriminate. Qed.

(** C9, as the code has it.  The working depth and the safe height, each
    multiplied by the unit conversion factor, are the depths the object
    writes: the safe height in the moves to the safe height and in the
    move to the probe height, the working depth in the corrected moves.
    The depth of the probe command is one of the two fixed fail depths,
    chosen by the output unit. *)
Theorem configured_depths :
  forall (D : Type) (ops : DoubleOps D)
         (FIXED_FAIL_DEPTH_MM FIXED_FAIL_DEPTH_IN : D)
         (options : Options D) (ocodes globalVars : uniqueCodes)
         (quantization_error xoffset yoffset : D) (tileInfo : TileInfo D),
    let c := fst (fst (make_settings FIXED_FAIL_DEPTH_MM FIXED_FAIL_DEPTH_IN
                         options ocodes globalVars quantization_error
                         xoffset yoffset tileInfo)) in
    let work : token D := Fix 5 (dmul (o_zwork options) (unitconv c)) in
    let safe : token D := Fix 3 (dmul (o_zsafe options) (unitconv c)) in
    let fail : token D :=
      Fix 3 (if o_metricoutput options
             then FIXED_FAIL_DEPTH_MM else FIXED_FAIL_DEPTH_IN) in
    zwork c = [work] /\ zsafe c = [safe] /\ zprobe c = [safe]
    /\ zfail c = [fail]
    /\ (forall (st : autoleveller D) (fuel : nat) (oc oc' : uniqueCodes)
               (out : text D),
          conf st = c -> header fuel st oc = Some (out, oc') ->
          Emitted [Lit "G0 Z"; safe; Lit " ( Move Z to safe height )"; endl]
            out
          /\ (software c = CUSTOM ->
              Emitted [endl; Lit "#4 = "; work; endl] out)
          /\ (feedrate c <> [] ->
              Emitted [Lit "G0 Z"; safe; Lit " ( Move Z to probe height )";
                       endl] out
              /\ Emitted [Lit (probeCommand c); Lit " Z"; fail; Lit " F"]
                   out))
    /\ (forall (st st' : autoleveller D) (point : icoordpair D)
               (out : text D),
          conf st = c -> software c = CUSTOM ->
          g01Corrected st point = Some (out, st') ->
          Emitted [Lit "G01 Z["; work; Lit "+#"; Int (returnVar c); Lit "]";
                   endl] out)
    /\ (forall (st : autoleveller D) (oc : uniqueCodes),
          conf st = c -> software c <> CUSTOM ->
          Emitted [Lit " Z["; work; Lit "+#15]"; endl]
            (fst (footerNoIf st oc))).
Proof.
  intros D ops FMM FIN options ocodes globalVars qe xo yo tile c work safe
    fail.
  assert (Hwork : zwork c = [work]) by reflexivity.
  assert (Hsafe : zsafe c = [safe]) by reflexivity.
  assert (Hprobe : zprobe c = [safe]) by reflexivity.
  assert (Hfail : zfail c = [fail]) by reflexivity.
  split; [exact Hwork|]. split; [exact Hsafe|]. split; [exact Hprobe|].
  split; [exact Hfail|]. split; [|split].
  - intros st fuel oc oc' out Hc E.
    destruct (header_has_end _ _ _ E) as (pre & ->).
    split; [|split].
    + apply Emitted_app_r. unfold headerEnd. rewrite Hc, Hsafe.
      find_emitted.
    + intros Hsw. apply Emitted_app_r. unfold headerEnd.
      rewrite Hc, Hsw, Hwork. cbn [Software_eqb]. find_emitted.
    + intros Hfeed. rewrite <- Hc in Hfeed.
      split; apply (Emitted_in_header _ _ _ Hfeed E);
        unfold probingIntro; rewrite Hc, Hsafe, Hprobe, Hfail; find_emitted.
  - intros st st' point out Hc Hsw E. unfold g01Corrected in E.
    rewrite Hc, Hsw in E. cbn [has_subroutines Software_eqb orb] in E.
    bind_inv E. apply Some_pair_inv in E. destruct E as [<- _].
    rewrite Hwork. find_emitted.
  - intros st oc Hc Hsw. unfold footerNoIf. rewrite Hc.
    destruct (Software_eqb (software c) CUSTOM) eqn:E;
      [apply Software_eqb_eq in E; contradiction|].
    cbn [getUniqueCode fst]. rewrite Hwork. find_emitted.
Qed.

Lemma configured_depths_witness :
  exists out,
    header 4 Scenario.custom_grid 7 = Some (out, 7)
    /\ Emitted [Lit "G0 Z"; Fix 3 (Binary64.of_Z 2);
                Lit " ( Move Z to probe height )"; endl] out
    /\ Emitted [Lit "G31"; Lit " Z"; Fix 3 (Binary64.dec (-1) 1); Lit " F"]
         out.
Proof.
  destruct (header 4 Scenario.custom_grid 7) as [[out oc]|] eqn:E;
    [|vm_compute in E; discriminate E].
  assert (Hoc : oc = 7) by (vm_compute in E; inversion E; reflexivity).
  subst oc. exists out. split; [reflexivity|].
  assert (Hc : conf Scenario.custom_grid
               = fst (fst (make_settings Scenario.fail_mm Scenario.fail_in
                             (Scenario.opts_10 "custom") 100 1
                             (Binary64.of_Z 0) (Binary64.of_Z 0)
                             (Binary64.of_Z 0) Scenario.single_tile)))
    by reflexivity.
  assert (Hfeed : feedrate
                    (fst (fst (make_settings Scenario.fail_mm Scenario.fail_in
                                 (Scenario.opts_10 "custom") 100 1
                                 (Binary64.of_Z 0) (Binary64.of_Z 0)
                                 (Binary64.of_Z 0) Scenario.single_tile)))
                  <> [])
    by (vm_compute; discriminate).
  destruct (@configured_depths _ _ Scenario.fail_mm Scenario.fail_in
              (Scenario.opts_10 "custom") 100 1
              (Binary64.of_Z 0) (Binary64.of_Z 0) (Binary64.of_Z 0)
              Scenario.single_tile)
    as (_ & _ & _ & _ & Hheader & _).
  destruct (Hheader Scenario.custom_grid 4%nat 7 7 out Hc E)
    as (_ & _ & Hprobing).
  destruct (Hprobing Hfeed) as [Hheight Hdepth].
  split.
  - vm_compute in Hheight. vm_compute. exact Hheight.
  - vm_compute in Hdepth. vm_compute. exact Hdepth.
Defined.

(* ================================================================== *)
(** ** Further properties of the code *)

(** *** Constructor *)

Lemma iequals_lower (a : string) :
  forall b, iequals a b = true <-> lower a = lower b.
Proof.
  induction a as [|x a IH]; intros [|y b]; cbn [iequals lower];
    try (split; [reflexivity | reflexivity]);
    try (split; discriminate).
  rewrite andb_true_iff, Ascii.eqb_eq, IH. split.
  - intros [-> ->]. reflexivity.
  - intros E. inversion E. split; reflexivity.
Qed.

(** X1. The constructor chooses the dialect by the name in the
    [software] option, compared without regard to the case of its
    letters: LinuxCNC, Mach3 and Mach4 for their names, and Custom for
    every other name. *)
Theorem software_selection :
  forall (D : Type) (ops : DoubleOps D)
         (FIXED_FAIL_DEPTH_MM FIXED_FAIL_DEPTH_IN : D)
         (options : Options D) (ocodes globalVars : uniqueCodes)
         (quantization_error xoffset yoffset : D) (tileInfo : TileInfo D),
    let c := fst (fst (make_settings FIXED_FAIL_DEPTH_MM FIXED_FAIL_DEPTH_IN
                         options ocodes globalVars quantization_error
                         xoffset yoffset tileInfo)) in
    let name := lower (o_software options) in
    (software c = LINUXCNC <-> name = "linuxcnc")
    /\ (software c = MACH3 <-> name = "mach3")
    /\ (software c = MACH4 <-> name = "mach4")
    /\ (software c = CUSTOM
        <-> name <> "linuxcnc" /\ name <> "mach3" /\ name <> "mach4").
Proof.
  intros D ops FMM FIN options ocodes globalVars qe xo yo tile c name.
  assert (E : software c
              = if iequals (o_software options) "linuxcnc" then LINUXCNC
                else if iequals (o_software options) "mach3" then MACH3
                else if iequals (o_software options) "mach4" then MACH4
                else CUSTOM) by reflexivity.
  rewrite E. clear E.
  pose proof (iequals_lower (o_software options) "linuxcnc") as H1.
  pose proof (iequals_lower (o_software options) "mach3") as H2.
  pose proof (iequals_lower (o_software options) "mach4") as H3.
  change (lower "linuxcnc") with "linuxcnc" in H1.
  change (lower "mach3") with "mach3" in H2.
  change (lower "mach4") with "mach4" in H3.
  fold name in H1, H2, H3.
  destruct (iequals (o_software options) "linuxcnc").
  { assert (En : name = "linuxcnc") by (apply H1; reflexivity).
    rewrite En. repeat split; intros; try discriminate; try tauto;
      try reflexivity. }
  assert (N1 : name <> "linuxcnc") by (intros F; apply H1 in F; discriminate).
  destruct (iequals (o_software options) "mach3").
  { assert (En : name = "mach3") by (apply H2; reflexivity).
    rewrite En. repeat split; intros; try discriminate; try tauto;
      try reflexivity. }
  assert (N2 : name <> "mach3") by (intros F; apply H2 in F; discriminate).
  destruct (iequals (o_software options) "mach4").
  { assert (En : name = "mach4") by (apply H3; reflexivity).
    rewrite En. repeat split; intros; try discriminate; try tauto;
      try reflexivity. }
  assert (N3 : name <> "mach4") by (intros F; apply H3 in F; discriminate).
  repeat split; intros; try discriminate; try tauto; try contradiction.
Qed.

(** X2. The constructor draws three subroutine numbers from [ocodes]
    and nine variable numbers from [globalVars], with [uniqueCodes]
    handing out successive numbers.  The three, and the nine, are
    pairwise distinct; they are the numbers from the allocator's state on
    entry up to, not including, its state on return. *)
Theorem constructor_codes :
  forall (D : Type) (ops : DoubleOps D)
         (FIXED_FAIL_DEPTH_MM FIXED_FAIL_DEPTH_IN : D)
         (options : Options D) (ocodes globalVars : uniqueCodes)
         (quantization_error xoffset yoffset : D) (tileInfo : TileInfo D),
    let r := make_settings FIXED_FAIL_DEPTH_MM FIXED_FAIL_DEPTH_IN
               options ocodes globalVars quantization_error
               xoffset yoffset tileInfo in
    let c := fst (fst r) in
    let subs := [g01InterpolatedNum c; yProbeNum c; xProbeNum c] in
    let vars := [returnVar c; globalVar0 c; globalVar1 c; globalVar2 c;
                 globalVar3 c; globalVar4 c; globalVar5 c;
                 initialXOffsetVar c; initialYOffsetVar c] in
    snd (fst r) = ocodes + 3
    /\ snd r = globalVars + 9
    /\ NoDup subs /\ NoDup vars
    /\ (forall n, In n subs <-> ocodes <= n < ocodes + 3)
    /\ (forall n, In n vars <-> globalVars <= n < globalVars + 9).
Proof.
  intros D ops FMM FIN options ocodes globalVars qe xo yo tile r c subs vars.
  assert (Es : subs = [ocodes; ocodes + 1; ocodes + 1 + 1]) by reflexivity.
  assert (Ev : vars = [globalVars; globalVars + 1; globalVars + 1 + 1;
                       globalVars + 1 + 1 + 1; globalVars + 1 + 1 + 1 + 1;
                       globalVars + 1 + 1 + 1 + 1 + 1;
                       globalVars + 1 + 1 + 1 + 1 + 1 + 1;
                       globalVars + 1 + 1 + 1 + 1 + 1 + 1 + 1;
                       globalVars + 1 + 1 + 1 + 1 + 1 + 1 + 1 + 1])
    by reflexivity.
  split; [cbn; lia|]. split; [cbn; lia|].
  rewrite Es, Ev.
  split; [|split; [|split]].
  - repeat constructor; simpl; lia.
  - repeat constructor; simpl; lia.
  - intros n. simpl. lia.
  - intros n. simpl. lia.
Qed.

(** *** The probe table *)

Section Table.
Context {D : Type} `{DoubleOps D}.

Lemma varIndex_grid (st : autoleveller D) (i j : Z) :
  0 <= i < numXPoints st -> 0 <= j < numYPoints st ->
  numXPoints st * numYPoints st + 499 <= INT_MAX ->
  varIndex st i j = Some (i * numYPoints st + j + 500)
  /\ 500 <= i * numYPoints st + j + 500
     <= numXPoints st * numYPoints st + 499.
Proof.
  intros Hi Hj Hfit. unfold INT_MAX in Hfit.
  assert (0 <= i * numYPoints st <= (numXPoints st - 1) * numYPoints st)
    by nia.
  split; [|nia].
  unfold varIndex.
  rewrite (@int_fits (i * numYPoints st))
    by (unfold INT_MIN, INT_MAX; nia).
  cbn [bind]. rewrite int_fits by (unfold INT_MIN, INT_MAX; nia).
  cbn [bind]. rewrite int_fits by (unfold INT_MIN, INT_MAX; nia).
  reflexivity.
Qed.

End Table.

(** X3. On a grid whose last index fits an [int], [getVarName] numbers
    the grid points with the variables [#500] to
    [#(499 + numXPoints * numYPoints)]: every grid point has a number in
    that range, and every number of the range is the number of a grid
    point. *)
Theorem table_slots :
  forall (D : Type) (ops : DoubleOps D) (st : autoleveller D),
    1 <= numXPoints st -> 1 <= numYPoints st ->
    numXPoints st * numYPoints st + 499 <= INT_MAX ->
    (forall i j,
        0 <= i < numXPoints st -> 0 <= j < numYPoints st ->
        exists a,
          varIndex st i j = Some a
          /\ getVarName st i j = Some [Lit "#"; Int a]
          /\ 500 <= a <= numXPoints st * numYPoints st + 499)
    /\ (forall a,
          500 <= a <= numXPoints st * numYPoints st + 499 ->
          exists i j,
            0 <= i < numXPoints st /\ 0 <= j < numYPoints st
            /\ varIndex st i j = Some a).
Proof.
  intros D ops st HX HY Hfit. split.
  - intros i j Hi Hj.
    destruct (varIndex_grid st Hi Hj Hfit) as [E Hr].
    exists (i * numYPoints st + j + 500).
    split; [exact E|]. split; [|exact Hr].
    unfold getVarName. rewrite E. reflexivity.
  - intros a Ha.
    set (ny := numYPoints st) in *.
    exists ((a - 500) / ny), ((a - 500) mod ny).
    assert (Hm : 0 <= (a - 500) mod ny < ny) by (apply Z.mod_pos_bound; lia).
    assert (Hd : 0 <= (a - 500) / ny) by (apply Z.div_pos; lia).
    assert (Hd' : (a - 500) / ny < numXPoints st).
    { apply Z.div_lt_upper_bound; nia. }
    split; [lia|]. split; [exact Hm|].
    destruct (@varIndex_grid _ st ((a - 500) / ny) ((a - 500) mod ny))
      as [E _]; [lia | exact Hm | exact Hfit |].
    rewrite E. f_equal. fold ny.
    pose proof (Z.div_mod (a - 500) ny ltac:(lia)). lia.
Qed.

Lemma table_slots_witness :
  exists i j,
    0 <= i < 3 /\ 0 <= j < 3 /\ varIndex custom_grid_100 i j = Some 507.
Proof.
  assert (HX : 1 <= numXPoints custom_grid_100) by (simpl; lia).
  assert (HY : 1 <= numYPoints custom_grid_100) by (simpl; lia).
  assert (Hfit : numXPoints custom_grid_100 * numYPoints custom_grid_100
                 + 499 <= INT_MAX) by (vm_compute; discriminate).
  apply (proj2 (@table_slots _ _ custom_grid_100 HX HY Hfit) 507).
  simpl. lia.
Defined.

(** X4. When [prepareWorkarea] accepts the grid, the variable of every
    grid point is numbered from 500 to 5000 at most on LinuxCNC, and to
    999 at most on the other dialects. *)
Theorem accepted_grid_table :
  forall (D : Type) (ops : DoubleOps D) (st st' : autoleveller D)
         (toolpaths : list (icoords D)),
    prepareWorkarea st toolpaths = Some (true, st') ->
    forall i j,
      0 <= i < numXPoints st' -> 0 <= j < numYPoints st' ->
      exists a,
        getVarName st' i j = Some [Lit "#"; Int a]
        /\ 500 <= a
        /\ (software (conf st) = LINUXCNC -> a <= 5000)
        /\ (software (conf st) <> LINUXCNC -> a <= 999).
Proof.
  intros D ops st st' toolpaths E i j Hi Hj.
  destruct (prepareWorkarea_result _ _ E)
    as (w & nX & nY & _ & _ & _ & _ & HX & HY & _ & _ & Hr & Hok).
  assert (Hlim : numXPoints st' * numYPoints st'
                 <= ceiling (software (conf st))).
  { destruct (too_many_points _ _) eqn:Et; [discriminate Hok|].
    destruct (Z_lt_le_dec (ceiling (software (conf st)))
                (numXPoints st' * numYPoints st')) as [Hlt|]; [|assumption].
    apply too_many_points_ceiling in Hlt. congruence. }
  assert (Hc : ceiling (software (conf st)) <= 4501)
    by (unfold ceiling; destruct (software (conf st)); lia).
  assert (Hfit : numXPoints st' * numYPoints st' + 499 <= INT_MAX)
    by (unfold INT_MAX; lia).
  destruct (varIndex_grid st' Hi Hj Hfit) as [Ev Hrange].
  exists (i * numYPoints st' + j + 500).
  unfold getVarName. rewrite Ev. split; [reflexivity|].
  split; [lia|]. split.
  - intros Hs. rewrite Hs in Hlim. unfold ceiling in Hlim. lia.
  - intros Hs. unfold ceiling in Hlim.
    destruct (software (conf st)); [congruence | lia..].
Qed.

Lemma accepted_grid_table_witness :
  exists st',
    prepareWorkarea (Scenario.fresh (Scenario.opts_10 "linuxcnc"))
      (Scenario.diagonal 100 80) = Some (true, st')
    /\ exists a, getVarName st' 10 8 = Some [Lit "#"; Int a] /\ a <= 5000.
Proof.
  destruct (prepareWorkarea (Scenario.fresh (Scenario.opts_10 "linuxcnc"))
              (Scenario.diagonal 100 80)) as [[[] st']|] eqn:E;
    [ | vm_compute in E; discriminate E | vm_compute in E; discriminate E].
  exists st'. split; [reflexivity|].
  assert (Hi : 0 <= 10 < numXPoints st')
    by (vm_compute in E; inversion E; vm_compute; split; congruence).
  assert (Hj : 0 <= 8 < numYPoints st')
    by (vm_compute in E; inversion E; vm_compute; split; congruence).
  destruct (@accepted_grid_table _ _ _ _ _ E 10 8 Hi Hj)
    as (a & Ha & _ & Hl & _).
  exists a. split; [exact Ha|]. apply Hl. reflexivity.
Defined.

(** *** Workarea and grid *)

Section EmptyPath.
Context {D : Type} `{DoubleOps D}.

Lemma scan_paths_empty_path (toolpaths : list (icoords D)) :
  forall w : workarea_t, In [] toolpaths -> scan_paths toolpaths w = None.
Proof.
  induction toolpaths as [|path rest IH]; intros w Hin; [destruct Hin|].
  destruct path as [|p l]; [reflexivity|].
  destruct Hin as [E | Hin]; [discriminate E|].
  cbn [scan_paths min_element max_element bind]. apply IH, Hin.
Qed.

End EmptyPath.

(** X5. A collection that holds an empty path has no workarea:
    [computeWorkarea] dereferences the [end()] that [std::min_element]
    returns for it, so the call, and with it [prepareWorkarea], is
    undefined. *)
Theorem empty_path_undefined :
  forall (D : Type) (ops : DoubleOps D) (st : autoleveller D)
         (toolpaths : list (icoords D)),
    In [] toolpaths ->
    computeWorkarea st toolpaths = None
    /\ prepareWorkarea st toolpaths = None.
Proof.
  intros D ops st toolpaths Hin.
  assert (E : computeWorkarea st toolpaths = None).
  { unfold computeWorkarea. rewrite scan_paths_empty_path by assumption.
    reflexivity. }
  split; [exact E|]. unfold prepareWorkarea. rewrite E. reflexivity.
Qed.

Lemma empty_path_undefined_witness :
  In [] (Scenario.diagonal 100 80 ++ [[]])
  /\ computeWorkarea (Scenario.fresh (Scenario.opts_10 "linuxcnc"))
       (Scenario.diagonal 100 80 ++ [[]]) = None.
Proof.
  assert (Hin : In [] (Scenario.diagonal 100 80 ++ [[]]))
    by (simpl; auto).
  split; [exact Hin|].
  exact (proj1 (@empty_path_undefined _ _
                  (Scenario.fresh (Scenario.opts_10 "linuxcnc")) _ Hin)).
Defined.

Module Nonfinite64.
Import Binary64 Table64.

Lemma sub_l64 (x y : spec_float) :
  is_finite x = false -> is_finite (SFsub prec emax x y) = false.
Proof.
  destruct x as [s|s| |s m e]; try discriminate; intros _;
    destruct y as [s'|s'| |s' m' e']; try reflexivity;
    destruct s, s'; reflexivity.
Qed.

Lemma sub_inf64 (s : bool) (y : spec_float) :
  is_finite (SFsub prec emax (S754_infinity s) y) = false.
Proof. apply sub_l64. reflexivity. Qed.

Lemma mul_l64 (x y : spec_float) :
  is_finite x = false -> is_finite (SFmul prec emax x y) = false.
Proof.
  destruct x as [s|s| |s m e]; try discriminate; intros _;
    destruct y as [s'|s'| |s' m' e']; reflexivity.
Qed.

Lemma add_l64 (x y : spec_float) :
  is_finite x = false -> is_finite (SFadd prec emax x y) = false.
Proof.
  destruct x as [s|s| |s m e]; try discriminate; intros _;
    destruct y as [s'|s'| |s' m' e']; try reflexivity;
    destruct s, s'; reflexivity.
Qed.

Lemma div_l64 (x y : spec_float) :
  is_finite x = false -> is_finite (SFdiv prec emax x y) = false.
Proof.
  destruct x as [s|s| |s m e]; try discriminate; intros _;
    destruct y as [s'|s'| |s' m' e']; reflexivity.
Qed.

Lemma round_nonfinite64 (x : spec_float) :
  is_finite x = false -> round x = x.
Proof. destruct x; try discriminate; reflexivity. Qed.

Lemma to_int_nonfinite64 (x : spec_float) :
  is_finite x = false -> double_to_int x = None.
Proof. destruct x; try discriminate; reflexivity. Qed.

End Nonfinite64.

Module NonfiniteExact.
Import Exact.

(** Case analysis on every test of the goal. *)
Ltac crush :=
  repeat match goal with
         | |- context [if ?c then _ else _] => destruct c
         end; try reflexivity.

Lemma sub_l_exact (x y : ereal) : is_fin x = false -> is_fin (esub x y) = false.
Proof.
  destruct x; try discriminate; intros _; destruct y; reflexivity.
Qed.

Lemma mul_l_exact (x y : ereal) : is_fin x = false -> is_fin (emul x y) = false.
Proof.
  destruct x; try discriminate; intros _; destruct y; simpl;
    unfold inf_of_sign; crush.
Qed.

Lemma add_l_exact (x y : ereal) : is_fin x = false -> is_fin (eadd x y) = false.
Proof.
  destruct x; try discriminate; intros _; destruct y; reflexivity.
Qed.

Lemma div_l_exact (x y : ereal) : is_fin x = false -> is_fin (ediv x y) = false.
Proof.
  destruct x; try discriminate; intros _; destruct y; simpl;
    unfold inf_of_sign; crush.
Qed.

Lemma to_int_nonfinite_exact (f : R -> Z) (x : ereal) :
  is_fin x = false -> double_to_int (lift_int f x) = None.
Proof. destruct x; try discriminate; reflexivity. Qed.

End NonfiniteExact.

(** X6. [prepareWorkarea] on the empty collection is undefined, whatever
    the object holds: the workarea keeps its infinite sentinels, its
    length is infinite or a NaN, and so is the quotient that is converted
    to [int].  On binary64 doubles and in exact arithmetic. *)
Theorem prepareWorkarea_no_toolpaths :
  (forall st : autoleveller Binary64.double, prepareWorkarea st [] = None)
  /\ (forall st : autoleveller Exact.ereal, prepareWorkarea st [] = None).
Proof.
  split; intros st; unfold prepareWorkarea, computeWorkarea;
    cbn [scan_paths bind fst snd].
  - rewrite Nonfinite64.to_int_nonfinite64; [reflexivity|].
    cbn [dround Binary64.ops]. rewrite Nonfinite64.round_nonfinite64;
      apply Nonfinite64.div_l64; unfold workareaLenX; cbn [fst snd];
      apply Nonfinite64.add_l64, Nonfinite64.mul_l64, Nonfinite64.sub_l64,
            Nonfinite64.sub_inf64.
  - cbn [dround Exact.ops].
    rewrite NonfiniteExact.to_int_nonfinite_exact; [reflexivity|].
    apply NonfiniteExact.div_l_exact. unfold workareaLenX. cbn [fst snd].
    apply NonfiniteExact.add_l_exact, NonfiniteExact.mul_l_exact,
          NonfiniteExact.sub_l_exact, NonfiniteExact.sub_l_exact.
    reflexivity.
Qed.

Module ScanExact.
Import Exact ExactFacts.
Open Scope R_scope.

Section Key.
Variable key : icoordpair ereal -> ereal.



End Key.



End ScanExact.

Module WorkareaExact.
Import Exact ExactFacts.
Open Scope R_scope.



End WorkareaExact.



Module SpacingExact.
Import Exact ExactFacts.
Open Scope R_scope.


End SpacingExact.


Module ExactPlan.
Import Exact ExactFacts.


End ExactPlan.


Section Replan.
Context {D : Type} `{DoubleOps D}.

(** [prepareWorkarea] reads the settings and nothing else of the
    object. *)
Lemma prepareWorkarea_reads_conf (a b : autoleveller D)
    (toolpaths : list (icoords D)) :
  conf a = conf b ->
  match prepareWorkarea a toolpaths, prepareWorkarea b toolpaths with
  | Some (oka, a'), Some (okb, b') =>
      oka = okb /\ set_lastPoint a' (lastPoint b') = b'
  | None, None => True
  | _, _ => False
  end.
Proof.
  intros E. unfold prepareWorkarea, computeWorkarea. rewrite E.
  destruct (scan_paths toolpaths _) as [w|]; cbn [bind]; [|exact I].
  repeat match goal with
         | |- context [bind ?m _] =>
             destruct m; cbn [bind]; [|exact I]
         end.
  split; reflexivity.
Qed.

End Replan.

(** X9. [prepareWorkarea] leaves the settings and the cursor as they
    were, and writes a grid that depends on the settings and the
    toolpaths only: the same call on its own result, or on any other
    object with the same settings, gives the same verdict and the same
    grid. *)
Theorem prepareWorkarea_replan :
  forall (D : Type) (ops : DoubleOps D) (st st' : autoleveller D)
         (toolpaths : list (icoords D)) (ok : bool),
    prepareWorkarea st toolpaths = Some (ok, st') ->
    conf st' = conf st
    /\ lastPoint st' = lastPoint st
    /\ prepareWorkarea st' toolpaths = Some (ok, st')
    /\ (forall other : autoleveller D,
          conf other = conf st ->
          exists other',
            prepareWorkarea other toolpaths = Some (ok, other')
            /\ set_lastPoint other' (lastPoint st) = st').
Proof.
  intros D ops st st' toolpaths ok E.
  assert (Hc : conf st' = conf st /\ lastPoint st' = lastPoint st).
  { unfold prepareWorkarea in E.
    repeat (let v := fresh "v" in let E' := fresh "E" in
            apply bind_Some in E; destruct E as (v & E' & E)).
    apply Some_pair_inv in E. destruct E as [_ <-]. split; reflexivity. }
  destruct Hc as [Hc Hl].
  assert (Hother : forall other : autoleveller D,
            conf other = conf st ->
            exists other',
              prepareWorkarea other toolpaths = Some (ok, other')
              /\ set_lastPoint other' (lastPoint st) = st').
  { intros other Ho.
    pose proof (@prepareWorkarea_reads_conf _ _ other st toolpaths Ho) as P.
    rewrite E in P.
    destruct (prepareWorkarea other toolpaths) as [[ok' other']|];
      [|destruct P].
    destruct P as [-> P]. rewrite Hl in P. eauto. }
  split; [exact Hc|]. split; [exact Hl|]. split; [|exact Hother].
  destruct (Hother st' Hc) as (st'' & E' & Hs). rewrite E'.
  f_equal. f_equal. rewrite <- Hs.
  assert (Hl'' : lastPoint st'' = lastPoint st).
  { unfold prepareWorkarea in E'.
    repeat (let v := fresh "v" in let E0 := fresh "E" in
            apply bind_Some in E'; destruct E' as (v & E0 & E')).
    apply Some_pair_inv in E'. destruct E' as [_ <-]. cbn. exact Hl. }
  rewrite <- Hl''. destruct st''. reflexivity.
Qed.

Lemma prepareWorkarea_replan_witness :
  prepareWorkarea (Scenario.fresh (Scenario.opts_10 "linuxcnc"))
    (Scenario.diagonal 100 80) = Some (true, Scenario.grid_100x80)
  /\ prepareWorkarea Scenario.grid_100x80 (Scenario.diagonal 100 80)
     = Some (true, Scenario.grid_100x80).
Proof.
  assert (E : prepareWorkarea (Scenario.fresh (Scenario.opts_10 "linuxcnc"))
                (Scenario.diagonal 100 80)
              = Some (true, Scenario.grid_100x80))
    by (vm_compute; reflexivity).
  split; [exact E|].
  exact (proj1 (proj2 (proj2 (@prepareWorkarea_replan _ _ _ _ _ _ E)))).
Defined.

Section Start.
Context {D : Type} `{DoubleOps D}.


End Start.



(** *** Header *)

(** X11. With an [al-probefeed] option that is not greater than zero
    the header holds no probing at all, for any grid and any fuel: it is
    the subroutines (LinuxCNC only), the second pass when
    [al-2ndprobefeed] is given, and the closing text. *)
Theorem header_without_probefeed :
  forall (D : Type) (ops : DoubleOps D)
         (FIXED_FAIL_DEPTH_MM FIXED_FAIL_DEPTH_IN : D)
         (options : Options D) (oc gv : uniqueCodes)
         (quantization_error xoffset yoffset : D) (tileInfo : TileInfo D)
         (st : autoleveller D) (fuel : nat) (ocodes : uniqueCodes),
    conf st = fst (fst (make_settings FIXED_FAIL_DEPTH_MM FIXED_FAIL_DEPTH_IN
                          options oc gv quantization_error
                          xoffset yoffset tileInfo)) ->
    dltb (dofZ 0) (o_al_probefeed options) = false ->
    header fuel st ocodes
    = Some ((if Software_eqb (software (conf st)) LINUXCNC
             then fst (footerNoIf st ocodes) else [])
            ++ match o_al_2ndprobefeed options with
               | Some _ => secondPass st
               | None => []
               end
            ++ headerEnd st,
            if Software_eqb (software (conf st)) LINUXCNC
            then ocodes + 1 else ocodes).
Proof.
  intros D ops FMM FIN options oc gv qe xo yo tile st fuel ocodes Hc Hfeed.
  assert (Ef : feedrate (conf st) = []).
  { rewrite Hc. cbn [make_settings getUniqueCode fst feedrate].
    rewrite Hfeed. reflexivity. }
  assert (E2 : (if is_empty (feedrate2nd (conf st)) then []
                else secondPass st)
               = match o_al_2ndprobefeed options with
                 | Some _ => secondPass st
                 | None => []
                 end).
  { rewrite Hc. cbn [make_settings getUniqueCode fst feedrate2nd].
    destruct (o_al_2ndprobefeed options); reflexivity. }
  unfold header. rewrite Ef, E2. cbn [is_empty bind app].
  destruct (Software_eqb (software (conf st)) LINUXCNC) eqn:Es.
  - apply Software_eqb_eq in Es. unfold footerNoIf. rewrite Es.
    cbn [Software_eqb getUniqueCode fst]. reflexivity.
  - reflexivity.
Qed.

Lemma header_without_probefeed_witness :
  dltb (dofZ 0) (o_al_probefeed options_without_probefeed) = false
  /\ header 0 grid_without_probefeed 7
     = Some (secondPass grid_without_probefeed
             ++ headerEnd grid_without_probefeed, 7).
Proof.
  assert (Hfeed : dltb (dofZ 0) (o_al_probefeed options_without_probefeed)
                  = false) by reflexivity.
  split; [exact Hfeed|].
  exact (@header_without_probefeed _ _ Scenario.fail_mm Scenario.fail_in
           options_without_probefeed 1 100
           (Binary64.of_Z 0) (Binary64.of_Z 0) (Binary64.of_Z 0)
           Scenario.single_tile grid_without_probefeed 0%nat 7
           eq_refl Hfeed).
Defined.

(** X12. [header] draws one subroutine number for the repeat loop of
    the X probe subroutine on LinuxCNC, and one for the repeat loop of
    the driver on a dialect with subroutines when a probe feed rate is
    set; the Custom dialect draws none.  On LinuxCNC the two loops are
    written with the two numbers drawn. *)
Theorem header_codes :
  forall (D : Type) (ops : DoubleOps D) (st : autoleveller D)
         (fuel : nat) (ocodes ocodes' : uniqueCodes) (out : text D),
    header fuel st ocodes = Some (out, ocodes') ->
    ocodes' = ocodes
              + (if Software_eqb (software (conf st)) LINUXCNC then 1 else 0)
              + (if is_empty (feedrate (conf st)) then 0
                 else if Software_eqb (software (conf st)) CUSTOM then 0
                      else 1)
    /\ (software (conf st) = LINUXCNC ->
        Emitted [Lit "    "; Lit "o"; Int ocodes; Lit " repeat ["; Lit "#";
                 Int (globalVar3 (conf st)); Lit "]"; endl] out
        /\ (feedrate (conf st) <> [] ->
            Emitted [Lit "o"; Int (ocodes + 1); Lit " repeat [";
                     Int (numXPoints st); Lit "]"; endl] out)).
Proof.
  intros D ops st fuel ocodes ocodes' out E.
  unfold header in E.
  destruct (software (conf st)) eqn:Es; cbn [Software_eqb negb] in E |- *.
  - (* LinuxCNC *)
    destruct (footerNoIf st ocodes) as [subs oc1] eqn:Ef.
    assert (Hoc1 : oc1 = ocodes + 1).
    { unfold footerNoIf in Ef. rewrite Es in Ef.
      cbn [Software_eqb getUniqueCode] in Ef.
      apply (f_equal snd) in Ef. cbn [snd] in Ef. congruence. }
    assert (Hsubs : Emitted [Lit "    "; Lit "o"; Int ocodes;
                             Lit " repeat ["; Lit "#";
                             Int (globalVar3 (conf st)); Lit "]"; endl] subs).
    { unfold footerNoIf in Ef. rewrite Es in Ef.
      cbn [Software_eqb getUniqueCode] in Ef.
      apply (f_equal fst) in Ef. cbn [fst] in Ef. rewrite <- Ef.
      cbn [startSub endSub callSubRepeat]. find_emitted. }
    bind_inv E. destruct v as [probing oc2].
    apply Some_pair_inv in E. destruct E as [<- <-].
    destruct (feedrate (conf st)) as [|t ts] eqn:Efeed; cbn [is_empty] in *.
    + apply Some_pair_inv in E0. destruct E0 as [<- <-].
      split; [lia|]. intros _. split; [|congruence].
      apply Emitted_app_l. exact Hsubs.
    + bind_inv E0. bind_inv E0. cbn [getUniqueCode] in E0.
      apply Some_pair_inv in E0. destruct E0 as [<- <-].
      split; [lia|]. intros _. split.
      * apply Emitted_app_l. exact Hsubs.
      * intros _. apply Emitted_app_r, Emitted_app_l, Emitted_app_r.
        unfold subroutineDriver. rewrite Es, Hoc1.
        cbn [callSubRepeat]. find_emitted.
  - bind_inv E. destruct v as [probing oc2].
    apply Some_pair_inv in E. destruct E as [_ <-].
    split; [|discriminate].
    destruct (is_empty _).
    + apply Some_pair_inv in E0. destruct E0 as [_ <-]. lia.
    + bind_inv E0. bind_inv E0. cbn [getUniqueCode] in E0.
      apply Some_pair_inv in E0. destruct E0 as [_ <-]. lia.
  - bind_inv E. destruct v as [probing oc2].
    apply Some_pair_inv in E. destruct E as [_ <-].
    split; [|discriminate].
    destruct (is_empty _).
    + apply Some_pair_inv in E0. destruct E0 as [_ <-]. lia.
    + bind_inv E0. bind_inv E0. cbn [getUniqueCode] in E0.
      apply Some_pair_inv in E0. destruct E0 as [_ <-]. lia.
  - bind_inv E. destruct v as [probing oc2].
    apply Some_pair_inv in E. destruct E as [_ <-].
    split; [|discriminate].
    destruct (is_empty _).
    + apply Some_pair_inv in E0. destruct E0 as [_ <-]. lia.
    + bind_inv E0. bind_inv E0.
      apply Some_pair_inv in E0. destruct E0 as [_ <-]. lia.
Qed.

Lemma header_codes_witness :
  exists out,
    header 0 Scenario.grid_100x80 7 = Some (out, 9)
    /\ Emitted [Lit "o"; Int 8; Lit " repeat ["; Int 11; Lit "]"; endl] out.
Proof.
  destruct (header 0 Scenario.grid_100x80 7) as [[out oc]|] eqn:E;
    [|vm_compute in E; discriminate E].
  destruct (@header_codes _ _ _ _ _ _ _ E) as (Hoc & Hlabels).
  assert (Hsw : software (conf Scenario.grid_100x80) = LINUXCNC)
    by reflexivity.
  assert (Hfeed : feedrate (conf Scenario.grid_100x80) <> [])
    by (vm_compute; discriminate).
  destruct (Hlabels Hsw) as (_ & Hdriver).
  specialize (Hdriver Hfeed).
  assert (Hoc' : oc = 9) by (rewrite Hoc; vm_compute; reflexivity).
  subst oc. exists out. split; [reflexivity|].
  assert (Hnx : numXPoints Scenario.grid_100x80 = 11)
    by (vm_compute; reflexivity).
  rewrite Hnx in Hdriver. exact Hdriver.
Defined.

(** *** The path of the serpentine *)

Lemma length_zup (n : nat) : forall a, List.length (zup a n) = n.
Proof. induction n as [|n IH]; intros a; cbn [zup List.length]; auto. Qed.

Lemma length_zdown (n : nat) : forall a, List.length (zdown a n) = n.
Proof. induction n as [|n IH]; intros a; cbn [zdown List.length]; auto. Qed.

Lemma length_column (ny i : Z) :
  1 <= ny -> 0 <= i ->
  Z.of_nat (List.length (column ny i)) = if i =? 0 then ny - 1 else ny.
Proof.
  intros Hny Hi. unfold column. destruct (i =? 0).
  - rewrite length_zup. lia.
  - destruct (Z.odd i); [rewrite length_zdown | rewrite length_zup]; lia.
Qed.

Lemma length_columns (ny : Z) (n : nat) :
  forall i, 1 <= ny -> 1 <= i ->
    Z.of_nat (List.length
                (flat_map (fun i' => map (pair i') (column ny i'))
                   (zup i n)))
    = Z.of_nat n * ny.
Proof.
  induction n as [|n IH]; intros i Hny Hi; cbn [zup flat_map].
  - reflexivity.
  - rewrite length_app, length_map, Nat2Z.inj_add, IH by lia.
    rewrite length_column by lia.
    replace (i =? 0) with false by (symmetry; apply Z.eqb_neq; lia).
    lia.
Qed.

Lemma length_serpentine (nx ny : Z) :
  1 <= nx -> 1 <= ny ->
  Z.of_nat (List.length (serpentine nx ny)) = nx * ny - 1.
Proof.
  intros Hnx Hny. unfold serpentine.
  destruct (Z.to_nat nx) as [|n] eqn:En; [lia|].
  cbn [zup flat_map].
  rewrite length_app, length_map, Nat2Z.inj_add, length_columns by lia.
  rewrite length_column by lia. cbn [Z.eqb]. nia.
Qed.

Lemma chain_app (l1 : list (Z * Z)) :
  forall p l2,
    chain p l1 -> chain (path_end p l1) l2 -> chain p (l1 ++ l2).
Proof.
  induction l1 as [|q l1 IH]; intros p l2 H1 H2; [exact H2|].
  cbn [app chain path_end] in *. destruct H1 as [Hn H1].
  split; [exact Hn | apply IH; assumption].
Qed.

Lemma path_end_app (l1 : list (Z * Z)) :
  forall p l2, path_end p (l1 ++ l2) = path_end (path_end p l1) l2.
Proof.
  induction l1 as [|q l1 IH]; intros p l2; [reflexivity|].
  cbn [app path_end]. apply IH.
Qed.

Lemma chain_up (i : Z) (n : nat) :
  forall a p,
    (n <> O -> neighbours p (i, a)) ->
    chain p (map (pair i) (zup a n))
    /\ path_end p (map (pair i) (zup a n))
       = if Nat.eqb n 0 then p else (i, a + Z.of_nat n - 1).
Proof.
  induction n as [|n IH]; intros a p Hp; cbn [zup map chain path_end].
  - split; [exact I | reflexivity].
  - destruct (IH (a + 1) (i, a)) as [Hc Hl].
    { intros _. unfold neighbours. cbn [fst snd]. lia. }
    split; [split; [apply Hp; discriminate | exact Hc]|].
    rewrite Hl. cbn [Nat.eqb]. destruct n; cbn [Nat.eqb]; f_equal; lia.
Qed.

Lemma chain_down (i : Z) (n : nat) :
  forall a p,
    (n <> O -> neighbours p (i, a)) ->
    chain p (map (pair i) (zdown a n))
    /\ path_end p (map (pair i) (zdown a n))
       = if Nat.eqb n 0 then p else (i, a - Z.of_nat n + 1).
Proof.
  induction n as [|n IH]; intros a p Hp; cbn [zdown map chain path_end].
  - split; [exact I | reflexivity].
  - destruct (IH (a - 1) (i, a)) as [Hc Hl].
    { intros _. unfold neighbours. cbn [fst snd]. lia. }
    split; [split; [apply Hp; discriminate | exact Hc]|].
    rewrite Hl. cbn [Nat.eqb]. destruct n; cbn [Nat.eqb]; f_equal; lia.
Qed.

(** A column of the serpentine, entered from the end of the column
    before it, or from the reference point. *)
Lemma chain_column (ny i : Z) :
  1 <= ny -> 0 <= i ->
  let p := if i =? 0 then (0, 0) else column_end ny (i - 1) in
  chain p (map (pair i) (column ny i))
  /\ path_end p (map (pair i) (column ny i)) = column_end ny i.
Proof.
  intros Hny Hi p. unfold column, column_end. subst p.
  destruct (i =? 0) eqn:E0; [apply Z.eqb_eq in E0 | apply Z.eqb_neq in E0].
  - subst i. cbn [Z.odd].
    destruct (@chain_up 0 (Z.to_nat (ny - 1)) 1 (0, 0)) as [Hc Hl].
    { intros _. unfold neighbours. cbn [fst snd]. lia. }
    split; [exact Hc|]. rewrite Hl.
    destruct (Nat.eqb_spec (Z.to_nat (ny - 1)) 0); f_equal; lia.
  - unfold column_end.
    assert (Hodd : Z.odd (i - 1) = negb (Z.odd i)).
    { replace i with (Z.succ (i - 1)) at 2 by lia.
      rewrite Z.odd_succ, <- Z.negb_odd, negb_involutive. reflexivity. }
    rewrite Hodd.
    destruct (Z.odd i); cbn [negb].
    + destruct (@chain_down i (Z.to_nat ny) (ny - 1) (i - 1, ny - 1))
        as [Hc Hl].
      { intros _. unfold neighbours. cbn [fst snd]. lia. }
      split; [exact Hc|]. rewrite Hl.
      destruct (Nat.eqb_spec (Z.to_nat ny) 0); [lia|]. f_equal. lia.
    + destruct (@chain_up i (Z.to_nat ny) 0 (i - 1, 0)) as [Hc Hl].
      { intros _. unfold neighbours. cbn [fst snd]. lia. }
      split; [exact Hc|]. rewrite Hl.
      destruct (Nat.eqb_spec (Z.to_nat ny) 0); [lia|]. f_equal. lia.
Qed.

Lemma chain_columns (ny : Z) (n : nat) :
  forall i,
    1 <= ny -> 0 <= i ->
    chain (if i =? 0 then (0, 0) else column_end ny (i - 1))
      (flat_map (fun i' => map (pair i') (column ny i')) (zup i n)).
Proof.
  induction n as [|n IH]; intros i Hny Hi; cbn [zup flat_map];
    [exact I|].
  destruct (chain_column Hny Hi) as [Hc Hl].
  apply chain_app; [exact Hc|]. rewrite Hl.
  specialize (IH (i + 1) Hny ltac:(lia)).
  replace (i + 1 =? 0) with false in IH
    by (symmetry; apply Z.eqb_neq; lia).
  replace (i + 1 - 1) with i in IH by lia. exact IH.
Qed.

(** X13. For the Custom dialect the probing traversal of the header
    holds [numXPoints * numYPoints - 1] probes; the first probed point
    is next to the reference point (0, 0), every other one is next to
    the point probed before it, in the same column or the same row, and
    the last one is the end of the last column. *)
Theorem custom_traversal_path :
  forall (D : Type) (ops : DoubleOps D) (st : autoleveller D)
         (ocodes : uniqueCodes) (fuel : nat),
    software (conf st) = CUSTOM ->
    feedrate (conf st) <> [] ->
    1 <= numXPoints st -> 1 <= numYPoints st ->
    numXPoints st * numYPoints st + 500 <= INT_MAX ->
    (Z.to_nat (numYPoints st) < fuel)%nat ->
    exists points : list (Z * Z),
      header fuel st ocodes
      = Some (probingIntro st (numXPoints st * numYPoints st)
              ++ flat_map (probeAndStore st) points
              ++ (if is_empty (feedrate2nd (conf st)) then []
                  else secondPass st)
              ++ headerEnd st,
              ocodes)
      /\ Z.of_nat (List.length points)
         = numXPoints st * numYPoints st - 1
      /\ chain (0, 0) points
      /\ path_end (0, 0) points
         = column_end (numYPoints st) (numXPoints st - 1).
Proof.
  intros D ops st ocodes fuel Hsw Hfeed Hnx Hny Hfit Hfuel.
  exists (serpentine (numXPoints st) (numYPoints st)).
  split; [apply header_custom; try assumption; lia|].
  split; [apply length_serpentine; assumption|].
  split; [apply (@chain_columns (numYPoints st)
                   (Z.to_nat (numXPoints st)) 0); lia|].
  unfold serpentine.
  assert (Hend : forall n i,
             0 <= i ->
             path_end (if i =? 0 then (0, 0)
                       else column_end (numYPoints st) (i - 1))
               (flat_map (fun i' => map (pair i') (column (numYPoints st) i'))
                  (zup i (S n)))
             = column_end (numYPoints st) (i + Z.of_nat n)).
  { induction n as [|n IH]; intros i Hi.
    - cbn [zup flat_map]. rewrite app_nil_r.
      destruct (chain_column Hny Hi) as [_ Hl]. rewrite Hl.
      f_equal; lia.
    - change (zup i (S (S n))) with (i :: zup (i + 1) (S n)).
      cbn [flat_map]. rewrite path_end_app.
      destruct (chain_column Hny Hi) as [_ Hl]. rewrite Hl.
      specialize (IH (i + 1) ltac:(lia)).
      replace (i + 1 =? 0) with false in IH
        by (symmetry; apply Z.eqb_neq; lia).
      replace (i + 1 - 1) with i in IH by lia. rewrite IH.
      f_equal; lia. }
  destruct (Z.to_nat (numXPoints st)) as [|n] eqn:En; [lia|].
  assert (H0 := Hend n 0 ltac:(lia)). cbn [Z.eqb] in H0. rewrite H0.
  f_equal; lia.
Qed.

Lemma custom_traversal_path_witness :
  exists points : list (Z * Z),
    Z.of_nat (List.length points) = 8
    /\ chain (0, 0) points
    /\ path_end (0, 0) points = (2, 2).
Proof.
  assert (Hsw : software (conf Scenario.custom_grid) = CUSTOM) by reflexivity.
  assert (Hfeed : feedrate (conf Scenario.custom_grid) <> [])
    by (vm_compute; discriminate).
  assert (Hnx : 1 <= numXPoints Scenario.custom_grid)
    by (vm_compute; discriminate).
  assert (Hny : 1 <= numYPoints Scenario.custom_grid)
    by (vm_compute; discriminate).
  assert (Hfit : numXPoints Scenario.custom_grid
                 * numYPoints Scenario.custom_grid + 500 <= INT_MAX)
    by (vm_compute; discriminate).
  assert (Hfuel : (Z.to_nat (numYPoints Scenario.custom_grid) < 4)%nat)
    by (vm_compute; repeat constructor).
  destruct (@custom_traversal_path _ _ Scenario.custom_grid 7 4%nat
              Hsw Hfeed Hnx Hny Hfit Hfuel)
    as (points & _ & Hlen & Hchain & Hend).
  exists points. split; [|split; [exact Hchain|]].
  - rewrite Hlen. vm_compute. reflexivity.
  - rewrite Hend. vm_compute. reflexivity.
Defined.

(** *** The variables the Custom traversal assigns *)

Lemma slot_grid_injective {D : Type} (st : autoleveller D) (i j i' j' : Z) :
  0 <= j < numYPoints st -> 0 <= j' < numYPoints st ->
  slot st i j = slot st i' j' -> i = i' /\ j = j'.
Proof.
  unfold slot. intros Hj Hj' E.
  assert (i = i') by nia. subst i'. split; [reflexivity | lia].
Qed.

Lemma NoDup_map_on {A B : Type} (f : A -> B) (l : list A) :
  (forall x y, In x l -> In y l -> f x = f y -> x = y) ->
  NoDup l -> NoDup (map f l).
Proof.
  intros Hinj Hnd. induction Hnd as [|x l Hx Hl IH]; cbn [map];
    constructor.
  - rewrite in_map_iff. intros (y & E & Hy).
    assert (y = x) by (apply Hinj; simpl; auto). subst y. contradiction.
  - apply IH. intros a b Ha Hb. apply Hinj; simpl; auto.
Qed.

(** X14. For the Custom dialect the header assigns every slot of the
    table once: [#500] in the introduction and, in the traversal, the
    slots of the points probed, which are pairwise different and make up
    [#501] to [#(499 + numXPoints * numYPoints)]. *)
Theorem custom_header_fills_table :
  forall (D : Type) (ops : DoubleOps D) (st : autoleveller D)
         (ocodes : uniqueCodes) (fuel : nat),
    software (conf st) = CUSTOM ->
    feedrate (conf st) <> [] ->
    1 <= numXPoints st -> 1 <= numYPoints st ->
    numXPoints st * numYPoints st + 500 <= INT_MAX ->
    (Z.to_nat (numYPoints st) < fuel)%nat ->
    exists points : list (Z * Z),
      header fuel st ocodes
      = Some (probingIntro st (numXPoints st * numYPoints st)
              ++ flat_map (probeAndStore st) points
              ++ (if is_empty (feedrate2nd (conf st)) then []
                  else secondPass st)
              ++ headerEnd st,
              ocodes)
      /\ let assigned :=
           500 :: map (fun ij => slot st (fst ij) (snd ij)) points in
         NoDup assigned
         /\ forall a,
              In a assigned
              <-> 500 <= a <= numXPoints st * numYPoints st + 499.
Proof.
  intros D ops st ocodes fuel Hsw Hfeed Hnx Hny Hfit Hfuel.
  set (nx := numXPoints st) in *. set (ny := numYPoints st) in *.
  exists (serpentine nx ny).
  split; [apply header_custom; try assumption; fold nx; lia|].
  assert (Hin : forall i j,
             In (i, j) (serpentine nx ny)
             <-> 0 <= i < nx /\ 0 <= j < ny /\ (i, j) <> (0, 0))
    by (intros i j; apply in_serpentine; lia).
  cbv zeta. split.
  - constructor.
    + rewrite in_map_iff. intros ([i j] & E & Hij). cbn [fst snd] in E.
      apply Hin in Hij. destruct Hij as (Hi & Hj & Hne).
      unfold slot in E. fold ny in E.
      assert (i = 0) by nia. subst i. assert (j = 0) by lia. subst j.
      apply Hne. reflexivity.
    + apply NoDup_map_on; [|apply NoDup_serpentine].
      intros [i j] [i' j'] H1 H2 E. cbn [fst snd] in E.
      apply Hin in H1, H2.
      destruct (@slot_grid_injective _ st i j i' j') as [-> ->];
        [fold ny; tauto | fold ny; tauto | exact E | reflexivity].
  - intros a. cbn [In]. rewrite in_map_iff. split.
    + intros [<- | ([i j] & E & Hij)]; [nia|].
      cbn [fst snd] in E. apply Hin in Hij. destruct Hij as (Hi & Hj & _).
      subst a. unfold slot. fold ny.
      assert (0 <= i * ny <= (nx - 1) * ny) by nia. nia.
    + intros Ha.
      destruct (Z.eq_dec a 500) as [-> | Hne]; [left; reflexivity|].
      right. exists ((a - 500) / ny, (a - 500) mod ny). cbn [fst snd].
      assert (Hm : 0 <= (a - 500) mod ny < ny)
        by (apply Z.mod_pos_bound; lia).
      assert (Hd : 0 <= (a - 500) / ny) by (apply Z.div_pos; lia).
      assert (Hd' : (a - 500) / ny < nx)
        by (apply Z.div_lt_upper_bound; nia).
      pose proof (Z.div_mod (a - 500) ny ltac:(lia)) as Hdm.
      split; [unfold slot; fold ny; lia|].
      apply Hin. split; [lia|]. split; [exact Hm|].
      intros F. inversion F as [[F1 F2]]. rewrite F1, F2 in Hdm. lia.
Qed.

Lemma custom_header_fills_table_witness :
  exists points : list (Z * Z),
    NoDup (500 :: map (fun ij => slot Scenario.custom_grid (fst ij) (snd ij))
                    points)
    /\ In 508 (500 :: map (fun ij => slot Scenario.custom_grid
                                      (fst ij) (snd ij)) points).
Proof.
  assert (Hsw : software (conf Scenario.custom_grid) = CUSTOM) by reflexivity.
  assert (Hfeed : feedrate (conf Scenario.custom_grid) <> [])
    by (vm_compute; discriminate).
  assert (Hnx : 1 <= numXPoints Scenario.custom_grid)
    by (vm_compute; discriminate).
  assert (Hny : 1 <= numYPoints Scenario.custom_grid)
    by (vm_compute; discriminate).
  assert (Hfit : numXPoints Scenario.custom_grid
                 * numYPoints Scenario.custom_grid + 500 <= INT_MAX)
    by (vm_compute; discriminate).
  assert (Hfuel : (Z.to_nat (numYPoints Scenario.custom_grid) < 4)%nat)
    by (vm_compute; repeat constructor).
  destruct (@custom_header_fills_table _ _ Scenario.custom_grid 7 4%nat
              Hsw Hfeed Hnx Hny Hfit Hfuel)
    as (points & _ & Hnd & Hin).
  exists points. split; [exact Hnd|].
  apply Hin. vm_compute. split; discriminate.
Defined.

(** *** Interpolation *)

Section Scratch.
Context {D : Type} `{DoubleOps D}.

Lemma update_other (s : store) (n k : Z) (v : D) :
  k <> n -> update s n v k = s k.
Proof.
  intros Hk. unfold update.
  destruct (k =? n) eqn:E; [apply Z.eqb_eq in E; contradiction|reflexivity].
Qed.

(** The assignments of [interpolation] have the targets 1, 2 and 3. *)
Lemma interpolation_targets (st : autoleveller D) (point : icoordpair D)
    (prog : list (gassign D)) :
  interpolation st point = Some prog -> map (@target D) prog = [1; 2; 3].
Proof.
  unfold interpolation. intros E.
  repeat (let v := fresh "v" in let E' := fresh "E" in
          apply bind_Some in E; destruct E as (v & E' & E)).
  apply Some_eq_inv in E. subst prog. reflexivity.
Qed.

Lemma run_frame (prog : list (gassign D)) :
  forall (s : store) (k : Z),
    ~ In k (map (@target D) prog) -> run prog s k = s k.
Proof.
  induction prog as [|a prog IH]; intros s k Hk; [reflexivity|].
  cbn [run fold_left]. change (fold_left exec prog (exec s a))
    with (run prog (exec s a)).
  rewrite IH by (intros Hin; apply Hk; right; exact Hin).
  unfold exec. apply update_other. intros ->. apply Hk. left. reflexivity.
Qed.

End Scratch.

(** X15. The three assignments [interpolatePoint] writes change the
    variables [#1], [#2] and [#3] and no other: every other variable,
    and so every slot of the probe table, holds after them the value it
    held before. *)
Theorem interpolation_scratch :
  forall (D : Type) (ops : DoubleOps D) (st : autoleveller D)
         (point : icoordpair D) (prog : list (gassign D)) (s : store),
    interpolation st point = Some prog ->
    interpolatePoint st point = Some (print_program prog)
    /\ (forall k, k <> 1 -> k <> 2 -> k <> 3 -> run prog s k = s k)
    /\ (forall i j a,
          0 <= i -> 0 <= j -> 0 <= numYPoints st ->
          varIndex st i j = Some a -> run prog s a = s a).
Proof.
  intros D ops st point prog s E.
  pose proof (interpolation_targets _ _ E) as Ht.
  assert (Hframe : forall k, k <> 1 -> k <> 2 -> k <> 3 ->
                             run prog s k = s k).
  { intros k H1 H2 H3. apply run_frame. rewrite Ht. simpl. lia. }
  split; [apply interpolatePoint_prints; exact E|].
  split; [exact Hframe|].
  intros i j a Hi Hj Hny Ea. unfold varIndex in Ea.
  bind_inv Ea. bind_inv Ea.
  apply int_Some in E0, E1, Ea.
  destruct E0 as [-> _], E1 as [-> _], Ea as [-> _].
  apply Hframe; nia.
Qed.

Lemma interpolation_scratch_witness :
  exists prog,
    interpolation Scenario.custom_grid (Binary64.of_Z 5, Binary64.of_Z 5)
    = Some prog
    /\ run prog Scenario.heights 505 = Scenario.heights 505.
Proof.
  destruct (interpolation Scenario.custom_grid
              (Binary64.of_Z 5, Binary64.of_Z 5)) as [prog|] eqn:E;
    [|vm_compute in E; discriminate E].
  exists prog. split; [reflexivity|].
  destruct (@interpolation_scratch _ _ _ _ _ Scenario.heights E)
    as (_ & Hframe & _).
  apply Hframe; discriminate.
Defined.

Section Program.
Context {D : Type} `{DoubleOps D}.

(** [interpolatePoint] returns the printed form of [interpolation], and
    is undefined where [interpolation] is. *)
Lemma interpolatePoint_program (st : autoleveller D) (point : icoordpair D) :
  interpolatePoint st point
  = match interpolation st point with
    | Some prog => Some (print_program prog)
    | None => None
    end.
Proof.
  destruct (interpolation st point) as [prog|] eqn:E;
    [apply interpolatePoint_prints; exact E|].
  unfold interpolation in E. unfold interpolatePoint, getVarName.
  repeat match type of E with
         | bind ?m _ = None =>
             destruct m; cbn [bind] in E |- *; [|reflexivity]
         end.
  discriminate E.
Qed.

End Program.

(** X16. For the Custom dialect, [g01Corrected] returns the three
    assignments of the interpolation, to [#1], [#2] and [#3], followed by
    a move whose depth is the working depth plus [#returnVar].  Unless
    [returnVar] is 1, 2 or 3 the assignments leave [#returnVar] as it
    was. *)
Theorem g01Corrected_custom_reads_returnVar :
  forall (D : Type) (ops : DoubleOps D) (st st' : autoleveller D)
         (point : icoordpair D) (out : text D),
    software (conf st) = CUSTOM ->
    g01Corrected st point = Some (out, st') ->
    exists prog,
      interpolation st point = Some prog
      /\ map (@target D) prog = [1; 2; 3]
      /\ out = print_program prog
               ++ [Lit "G01 Z["] ++ zwork (conf st)
               ++ [Lit "+#"; Int (returnVar (conf st)); Lit "]"; endl]
      /\ forall s : store,
           ~ In (returnVar (conf st)) [1; 2; 3] ->
           run prog s (returnVar (conf st)) = s (returnVar (conf st)).
Proof.
  intros D ops st st' point out Hsw E. unfold g01Corrected in E.
  rewrite Hsw in E. cbn [has_subroutines Software_eqb orb] in E.
  rewrite interpolatePoint_program in E.
  destruct (interpolation st point) as [prog|] eqn:Ep; [|discriminate E].
  cbn [bind] in E. apply Some_pair_inv in E. destruct E as [<- _].
  pose proof (interpolation_targets _ _ Ep) as Ht.
  exists prog. split; [reflexivity|]. split; [exact Ht|].
  split; [reflexivity|].
  intros s Hr. apply run_frame. rewrite Ht. exact Hr.
Qed.

Lemma g01Corrected_custom_reads_returnVar_witness :
  exists prog,
    interpolation custom_grid_100 (Binary64.of_Z 5, Binary64.of_Z 5)
    = Some prog
    /\ returnVar (conf custom_grid_100) = 100
    /\ run prog Scenario.heights 100 = Scenario.heights 100.
Proof.
  destruct (g01Corrected custom_grid_100
              (Binary64.of_Z 5, Binary64.of_Z 5)) as [[out st']|] eqn:E;
    [|vm_compute in E; discriminate E].
  destruct (@g01Corrected_custom_reads_returnVar _ _ custom_grid_100 _ _ _
              eq_refl E) as (prog & Ep & _ & _ & Hr).
  exists prog. split; [exact Ep|]. split; [reflexivity|].
  apply (Hr Scenario.heights). simpl. intros [F|[F|[F|[]]]]; discriminate F.
Defined.

Module RoundExact.
Import Exact ExactFacts.
Open Scope R_scope.




End RoundExact.

Module CellExact.
Import Exact ExactFacts.
Open Scope R_scope.


End CellExact.

Module ProgramExact.
Import Exact ExactFacts.
Open Scope R_scope.



End ProgramExact.









(** *** Chain moves *)

Section NoMove.
Context {D : Type} `{DoubleOps D}.

Lemma set_lastPoint_same (st : autoleveller D) :
  set_lastPoint st (lastPoint st) = st.
Proof. destruct st. reflexivity. Qed.

(** A count of zero makes [addChainPoint] return the empty text. *)
Lemma addChainPoint_no_segment (st : autoleveller D) (point : icoordpair D) :
  numOfSubsegments st point = Some 0 ->
  addChainPoint st point = Some ([], set_lastPoint st point).
Proof.
  intros E. unfold addChainPoint. rewrite E. cbn [bind].
  cbn [splitSegment Z.eqb UINT_MAX Z.to_nat seq map bind].
  destruct (has_subroutines _); reflexivity.
Qed.

(** The count is taken with one of the three spacings. *)
Lemma numOfSubsegments_cases (st : autoleveller D) (point : icoordpair D)
    (P : option Z -> Prop) :
  (forall step,
      step = XProbeDist st \/ step = YProbeDist st
      \/ step = averageProbeDist st ->
      P (double_to_uint
           (dceil (ddiv (distance (lastPoint st) point) step)))) ->
  P (numOfSubsegments st point).
Proof.
  intros HP. unfold numOfSubsegments.
  destruct (dleb _ _); [apply HP; auto|].
  destruct (dleb _ _); apply HP; auto.
Qed.

End NoMove.

Module NoMove64.
Import Binary64 Table64.

Lemma sub_self64 (x : spec_float) :
  is_finite x = true -> SFsub prec emax x x = S754_zero false.
Proof.
  destruct x as [s|s| |s m e]; try discriminate; intros _.
  - destruct s; reflexivity.
  - cbn [SFsub]. rewrite Z.min_id. unfold shl_align. rewrite Z.sub_diag.
    cbn [fst]. reflexivity.
Qed.

Lemma distance_self64 (p : icoordpair double) :
  is_finite (fst p) = true -> is_finite (snd p) = true ->
  distance p p = S754_zero false.
Proof.
  intros Hx Hy. unfold distance. cbn [dsub dmul dadd dsqrt ops].
  rewrite !sub_self64 by assumption. reflexivity.
Qed.

Lemma count_zero64 (step : spec_float) :
  SFltb (S754_zero false) (SFabs step) = true ->
  double_to_uint (ceil (SFdiv prec emax (S754_zero false) step)) = Some 0.
Proof.
  destruct step as [s|s| |s m e]; try discriminate; intros _; reflexivity.
Qed.

End NoMove64.

Module NoMoveExact.
Import Exact ExactFacts.
Open Scope R_scope.

Lemma count_zero_exact (step : ereal) :
  eltb (Fin 0) (eabs step) = true ->
  double_to_uint (dceil (ddiv (Fin 0) step)) = Some 0%Z.
Proof.
  destruct step as [s| | |]; cbn [eabs eltb]; try discriminate; intros Hs.
  - apply Rltb_true in Hs.
    assert (s <> 0) by (intros ->; rewrite Rabs_R0 in Hs; lra).
    cbn [ddiv dceil ops ediv]. rewrite (proj2 (Reqb_false s 0)) by assumption.
    cbn [lift_int]. unfold double_to_uint. cbn [dtrunc ops etrunc bind].
    rewrite CeilExact.Rtrunc_IZR.
    replace (0 / s) with 0 by (unfold Rdiv; ring).
    rewrite (proj2 (@CeilExact.Rceil_zero_iff 0 (Rle_refl 0)) eq_refl).
    reflexivity.
  - cbn [ddiv dceil ops ediv lift_int]. unfold double_to_uint.
    cbn [dtrunc ops etrunc bind]. rewrite CeilExact.Rtrunc_IZR.
    unfold Rfloor, Rceil. rewrite Ropp_0. change 0 with (IZR 0).
    rewrite Int_part_IZR. reflexivity.
  - cbn [ddiv dceil ops ediv lift_int]. unfold double_to_uint.
    cbn [dtrunc ops etrunc bind]. rewrite CeilExact.Rtrunc_IZR.
    unfold Rfloor, Rceil. rewrite Ropp_0. change 0 with (IZR 0).
    rewrite Int_part_IZR. reflexivity.
Qed.

Lemma distance_self_exact (x y : R) :
  distance (Fin x, Fin y) (Fin x, Fin y) = Fin 0.
Proof.
  rewrite CeilExact.distance_exact. f_equal.
  replace ((x - x) * (x - x) + (y - y) * (y - y)) with 0 by ring.
  apply sqrt_0.
Qed.

End NoMoveExact.

(** X21. [addChainPoint] with the cursor itself as the target, a finite
    cursor and spacings that are neither zero nor NaN: the count of
    sub-segments is 0, the text returned is empty and the object is
    unchanged.  In exact arithmetic and on binary64 doubles. *)
Theorem addChainPoint_no_move :
  (forall (st : autoleveller Exact.ereal) (lx ly : R),
      lastPoint st = (Exact.Fin lx, Exact.Fin ly) ->
      dltb (dofZ 0) (dabs (XProbeDist st)) = true ->
      dltb (dofZ 0) (dabs (YProbeDist st)) = true ->
      dltb (dofZ 0) (dabs (averageProbeDist st)) = true ->
      numOfSubsegments st (lastPoint st) = Some 0
      /\ addChainPoint st (lastPoint st) = Some ([], st))
  /\ (forall st : autoleveller Binary64.double,
        Table64.is_finite (fst (lastPoint st)) = true ->
        Table64.is_finite (snd (lastPoint st)) = true ->
        dltb (dofZ 0) (dabs (XProbeDist st)) = true ->
        dltb (dofZ 0) (dabs (YProbeDist st)) = true ->
        dltb (dofZ 0) (dabs (averageProbeDist st)) = true ->
        numOfSubsegments st (lastPoint st) = Some 0
        /\ addChainPoint st (lastPoint st) = Some ([], st)).
Proof.
  split.
  - intros st lx ly Hl HX HY HA.
    assert (E : numOfSubsegments st (lastPoint st) = Some 0).
    { apply numOfSubsegments_cases. intros step Hstep.
      rewrite Hl, NoMoveExact.distance_self_exact.
      apply NoMoveExact.count_zero_exact.
      destruct Hstep as [-> | [-> | ->]]; assumption. }
    split; [exact E|].
    rewrite (addChainPoint_no_segment _ _ E), set_lastPoint_same.
    reflexivity.
  - intros st Hx Hy HX HY HA.
    assert (E : numOfSubsegments st (lastPoint st) = Some 0).
    { apply numOfSubsegments_cases. intros step Hstep.
      rewrite NoMove64.distance_self64 by assumption.
      apply NoMove64.count_zero64.
      destruct Hstep as [-> | [-> | ->]]; assumption. }
    split; [exact E|].
    rewrite (addChainPoint_no_segment _ _ E), set_lastPoint_same.
    reflexivity.
Qed.

Lemma addChainPoint_no_move_witness :
  addChainPoint ExactScenario.grid (Exact.Fin 0, Exact.Fin 0)
  = Some ([], ExactScenario.grid)
  /\ addChainPoint custom_grid_100 (Binary64.of_Z 0, Binary64.of_Z 0)
     = Some ([], custom_grid_100).
Proof.
  assert (Hpos : dltb (dofZ 0) (dabs (Exact.Fin 10)) = true).
  { cbn [dltb dofZ dabs Exact.ops Exact.eabs Exact.eltb].
    apply ExactFacts.Rltb_true. rewrite Rabs_pos_eq; lra. }
  split.
  - exact (proj2 (proj1 addChainPoint_no_move ExactScenario.grid 0%R 0%R
                    eq_refl Hpos Hpos Hpos)).
  - exact (proj2 (proj2 addChainPoint_no_move custom_grid_100
                    eq_refl eq_refl eq_refl eq_refl eq_refl)).
Defined.

Module ExactMoves.
Import Exact ExactFacts.
Open Scope R_scope.


End ExactMoves.

Module LeastExact.
Import Exact ExactFacts.
Open Scope R_scope.


End LeastExact.



Section Inline.
Context {D : Type} `{DoubleOps D}.




End Inline.

Module TargetExact.
Import Exact ExactFacts.
Open Scope R_scope.


End TargetExact.



Module BoxExact.
Import Exact ExactFacts.
Open Scope R_scope.



End BoxExact.


